(** * Trace-log plotting tools: [plot.py] and [run_traces.py]

    A shallow embedding of the two scripts and the properties of their
    log parsers, of the run orchestration and of the argument checks.

    Conventions of the embedding
    - a Python [str] is a [text]: the list of its code points;
    - a file is the list of its bytes; the text layer (UTF-8 decoding,
      universal newlines, chunked reading) is modelled in [TextIO];
    - Python integers are [Z]; [timedelta.total_seconds()] is the exact
      rational number of seconds, in lowest terms (the float Python
      returns is the double nearest to it);
    - exceptions are values of [exn]; a computation that can raise
      returns a [result].
    - character classes: [\s] is Python's Unicode white space; [\d],
      and the digits [int] takes, are the ASCII digits only (the other
      decimal digits of Unicode never occur in a curl trace and are
      left out). *)

From Stdlib Require Import Strings.String Strings.Ascii Strings.Byte.
From Stdlib Require Import Numbers.DecimalString DecimalPos DecimalZ.
From Stdlib Require Import ZArith NArith QArith Qreduction List Sorted Bool Lia.
Import ListNotations.

Local Open Scope Z_scope.

(** ** Text *)

Definition char := N.
Definition text := list char.

(** A string literal of the source. *)
Definition T (s : string) : text := map N_of_ascii (list_ascii_of_string s).

Definition text_eq_dec : forall a b : text, {a = b} + {a <> b} :=
  list_eq_dec N.eq_dec.

Definition text_eqb (a b : text) : bool :=
  if text_eq_dec a b then true else false.

(** ** Exceptions and results *)

Inductive exn :=
| ValueError
| TypeError
| IndexError
| UnicodeDecodeError
| FileNotFoundError
| CalledProcessError.

Inductive result (A : Type) :=
| Ok (a : A)
| Raise (e : exn).
Arguments Ok {A} a.
Arguments Raise {A} e.

Definition bind {A B} (r : result A) (k : A -> result B) : result B :=
  match r with
  | Ok a => k a
  | Raise e => Raise e
  end.

Notation "x <- r ;; k" := (bind r (fun x => k))
  (at level 61, r at next level, right associativity).

Definition of_option {A} (e : exn) (o : option A) : result A :=
  match o with
  | Some a => Ok a
  | None => Raise e
  end.

(** ** Regular expressions

    The fragment of [re] the two scripts and [strptime] use: literal
    characters, character classes, fixed and bounded repetition of a
    class, greedy [+] on a class, alternation of fixed sequences, and
    named groups.  [re.match] anchors at the start of the line (the [^]
    of the patterns adds nothing) and returns the first success of a
    backtracking search; the matcher below lists the successes in that
    search order. *)
Module Re.

Inductive atom :=
| Chr (c : char)            (* a literal character *)
| Range (lo hi : char)      (* [lo-hi] *)
| Digit                     (* \d *)
| Space.                    (* \s *)

Inductive rx :=
| One (a : atom)                  (* a       *)
| Times (n : nat) (a : atom)      (* a{n}    *)
| Upto (n : nat) (a : atom)       (* a{1,n}  *)
| Plus (a : atom)                 (* a+      *)
| Alt (alts : list (list atom)).  (* s1|s2|… *)

Inductive node :=
| Plain (r : rx)
| Group (name : string) (rs : list rx).   (* (?P<name>…) *)

Definition pattern := list node.

Definition is_digit (c : char) : bool := ((48 <=? c) && (c <=? 57))%N.

(** [str.isspace] on single characters, which is what [\s] tests. *)
Definition is_space (c : char) : bool :=
  (((9 <=? c) && (c <=? 13)) || ((28 <=? c) && (c <=? 32))
   || (c =? 133) || (c =? 160) || (c =? 5760)
   || ((8192 <=? c) && (c <=? 8202))
   || (c =? 8232) || (c =? 8233) || (c =? 8239) || (c =? 8287)
   || (c =? 12288))%N.

Definition sat (a : atom) (c : char) : bool :=
  match a with
  | Chr d => (c =? d)%N
  | Range lo hi => ((lo <=? c) && (c <=? hi))%N
  | Digit => is_digit c
  | Space => is_space c
  end.

(** A success: the characters consumed and the rest of the subject. *)
Definition success := (text * text)%type.

Definition one (a : atom) (s : text) : list success :=
  match s with
  | c :: s' => if sat a c then [([c], s')] else []
  | [] => []
  end.

Definition push (c : char) (r : success) : success := (c :: fst r, snd r).

Fixpoint times (n : nat) (a : atom) (s : text) : list success :=
  match n with
  | O => [([], s)]
  | S n' =>
      match s with
      | c :: s' => if sat a c then map (push c) (times n' a s') else []
      | [] => []
      end
  end.

(** Greedy: the longest run first, then the shorter ones, down to one
    character. *)
Fixpoint upto (n : nat) (a : atom) (s : text) : list success :=
  match n with
  | O => []
  | S n' =>
      match s with
      | c :: s' =>
          if sat a c then map (push c) (upto n' a s') ++ [([c], s')] else []
      | [] => []
      end
  end.

Fixpoint plus (a : atom) (s : text) : list success :=
  match s with
  | c :: s' => if sat a c then map (push c) (plus a s') ++ [([c], s')] else []
  | [] => []
  end.

Fixpoint atoms (l : list atom) (s : text) : list success :=
  match l with
  | [] => [([], s)]
  | a :: l' =>
      match s with
      | c :: s' => if sat a c then map (push c) (atoms l' s') else []
      | [] => []
      end
  end.

Definition step (r : rx) (s : text) : list success :=
  match r with
  | One a => one a s
  | Times n a => times n a s
  | Upto n a => upto n a s
  | Plus a => plus a s
  | Alt alts => flat_map (fun l => atoms l s) alts
  end.

Definition glue (m : text) (r : success) : success := (m ++ fst r, snd r).

Fixpoint seq (rs : list rx) (s : text) : list success :=
  match rs with
  | [] => [([], s)]
  | r :: rs' =>
      flat_map (fun x => map (glue (fst x)) (seq rs' (snd x))) (step r s)
  end.

(** A match object: the named groups, and the unmatched rest. *)
Definition groups := list (string * text).
Definition mobj := (groups * text)%type.

Definition bind_group (name : string) (m : text) (r : mobj) : mobj :=
  ((name, m) :: fst r, snd r).

Fixpoint run (p : pattern) (s : text) : list mobj :=
  match p with
  | [] => [([], s)]
  | Plain r :: p' => flat_map (fun x => run p' (snd x)) (step r s)
  | Group name rs :: p' =>
      flat_map (fun x => map (bind_group name (fst x)) (run p' (snd x)))
               (seq rs s)
  end.

(** [pattern.match(line)]: [None] when there is no match. *)
Definition rmatch (p : pattern) (s : text) : option mobj := hd_error (run p s).

(** [m.group(name)]; an unknown name is an [IndexError]. *)
Fixpoint lookup (name : string) (g : groups) : option text :=
  match g with
  | [] => None
  | (n, v) :: g' => if String.eqb n name then Some v else lookup name g'
  end.

Definition group (m : mobj) (name : string) : result text :=
  of_option IndexError (lookup name (fst m)).

(** The position where the match ends is the subject's length less the
    rest's. *)
Definition at_end (m : mobj) : bool :=
  match snd m with [] => true | _ => false end.

End Re.

Import Re.

Definition chr (s : string) : char :=
  match s with
  | String c _ => N_of_ascii c
  | EmptyString => 0%N
  end.

Definition lit (s : string) : list node := map (fun c => Plain (One (Chr c))) (T s).

(** [\d{2}:\d{2}:\d{2}\.\d{6}] *)
Definition TS_BODY : list rx :=
  [Times 2 Digit; One (Chr (chr ":")); Times 2 Digit; One (Chr (chr ":"));
   Times 2 Digit; One (Chr (chr ".")); Times 6 Digit].

(** [^(?P<ts>\d{2}:\d{2}:\d{2}\.\d{6})]: [ts_rx] of plot.py and [ANY_TS]
    of run_traces.py. *)
Definition ts_rx : pattern := [Group "ts" TS_BODY].

(** [^(?P<ts>\d{2}:\d{2}:\d{2}\.\d{6})\s+<=\s+Recv data,\s+(?P<bytes>\d+)\s+bytes]:
    [data_rx] of plot.py and [RECV_DATA] of run_traces.py. *)
Definition data_rx : pattern :=
  [Group "ts" TS_BODY; Plain (Plus Space)] ++ lit "<=" ++
  [Plain (Plus Space)] ++ lit "Recv data," ++
  [Plain (Plus Space); Group "bytes" [Plus Digit]; Plain (Plus Space)] ++
  lit "bytes".

Definition ANY_TS : pattern := ts_rx.
Definition RECV_DATA : pattern := data_rx.


(** ** [int(str)]

    Base ten: white space is stripped at both ends, one sign may come
    first, and the digits may be separated by single underscores.
    [None] stands for the [ValueError].  (The bound Python 3.11 puts on
    the number of digits, 4300 unless configured, is left out.) *)

(** The white space [int] strips: that of [\s] less the four separators
    U+001C to U+001F. *)
Definition int_space (c : char) : bool :=
  is_space c && negb ((28 <=? c) && (c <=? 31))%N.

Fixpoint lstrip (s : text) : text :=
  match s with
  | c :: s' => if int_space c then lstrip s' else s
  | [] => []
  end.

Definition strip (s : text) : text := rev (lstrip (rev (lstrip s))).

Fixpoint digits (s : text) (acc : Z) (after_digit : bool) : option Z :=
  match s with
  | [] => if after_digit then Some acc else None
  | c :: s' =>
      if is_digit c then digits s' (10 * acc + (Z.of_N c - 48)) true
      else if (c =? chr "_")%N then
             if after_digit then digits s' acc false else None
           else None
  end.

Definition py_int (s : text) : option Z :=
  match strip s with
  | c :: s' =>
      if (c =? chr "-")%N then option_map Z.opp (digits s' 0 false)
      else if (c =? chr "+")%N then digits s' 0 false
      else digits (c :: s') 0 false
  | [] => None
  end.

Definition int (s : text) : result Z := of_option ValueError (py_int s).

(** [str(n)] for an integer. *)
Definition str (n : Z) : text := T (NilZero.string_of_int (Z.to_int n)).

(** ** [datetime]

    [strptime] with the format ['%H:%M:%S.%f'] leaves the date at
    1900-01-01, so a [datetime] here is its time of day. *)

Record datetime := mk_datetime
  { hour : Z; minute : Z; second : Z; microsecond : Z }.

(** The constructor checks the ranges of its fields. *)
Definition new_datetime (h m s us : Z) : result datetime :=
  if (0 <=? h) && (h <? 24) && (0 <=? m) && (m <? 60)
     && (0 <=? s) && (s <? 60) && (0 <=? us) && (us <? 1000000)
  then Ok (mk_datetime h m s us)
  else Raise ValueError.

(** The regular expressions [_strptime] keeps for the directives:
    - [%H] is [(?P<H>2[0-3]|[0-1]\d|\d)],
    - [%M] is [(?P<M>[0-5]\d|\d)],
    - [%S] is [(?P<S>6[0-1]|[0-5]\d|\d)],
    - [%f] is [(?P<f>[0-9]{1,6})]. *)
Definition directive_H : node :=
  Group "H" [Alt [[Chr (chr "2"); Range (chr "0") (chr "3")];
                  [Range (chr "0") (chr "1"); Digit];
                  [Digit]]].

Definition directive_M : node :=
  Group "M" [Alt [[Range (chr "0") (chr "5"); Digit]; [Digit]]].

Definition directive_S : node :=
  Group "S" [Alt [[Chr (chr "6"); Range (chr "0") (chr "1")];
                  [Range (chr "0") (chr "5"); Digit];
                  [Digit]]].

Definition directive_f : node :=
  Group "f" [Upto 6 (Range (chr "0") (chr "9"))].

Definition colon : node := Plain (One (Chr (chr ":"))).
Definition dot : node := Plain (One (Chr (chr "."))).

(** The pattern of the format ['%H:%M:%S.%f']. *)
Definition TIME_RE : pattern :=
  [directive_H; colon; directive_M; colon; directive_S; dot; directive_f].

(** [datetime.strptime(s, '%H:%M:%S.%f')]: no match, unconverted data
    after the match and a field out of range are each a [ValueError]. *)
Definition strptime (s : text) : result datetime :=
  match rmatch TIME_RE s with
  | None => Raise ValueError
  | Some found =>
      if at_end found then
        H <- group found "H" ;;
        M <- group found "M" ;;
        S <- group found "S" ;;
        f <- group found "f" ;;
        h <- int H ;;
        m <- int M ;;
        sec <- int S ;;
        fraction <- int (f ++ repeat (chr "0") (6 - length f)) ;;
        new_datetime h m sec fraction
      else Raise ValueError
  end.

(** A [timedelta], in microseconds. *)
Definition timedelta := Z.

Definition micros (d : datetime) : Z :=
  ((hour d * 60 + minute d) * 60 + second d) * 1000000 + microsecond d.

(** [a - b] on datetimes. *)
Definition sub_datetime (a b : datetime) : timedelta := micros a - micros b.

(** [td.total_seconds()] *)
Definition total_seconds (td : timedelta) : Q := Qred (td # 1000000).


(** ** The text layer of [open]

    A file opened in text mode is read from its buffer in chunks of at
    most [CHUNK_SIZE] bytes; each chunk goes through the incremental
    UTF-8 decoder, then through the universal-newlines translation, and
    [for line in f] hands out the complete lines decoded so far before
    it asks for the next chunk.  So the bytes of a chunk are not looked
    at until the loop asks for a line that the chunks before it do not
    complete. *)
Module TextIO.

(** The [errors] argument of [open]: the default, and ['ignore']. *)
Inductive handler := Strict | Ignore.

Definition CHUNK_SIZE : nat := N.to_nat 8192.

(** What a first byte announces. *)
Inductive lead :=
| Single (c : char)
| Lead (more : nat) (lo hi : N) (bits : N)
| Bad.

Definition between (lo hi b : N) : bool := ((lo <=? b) && (b <=? hi))%N.

Definition lead_of (b : N) : lead :=
  (if b <? 128 then Single b
   else if between 194 223 b then Lead 1 128 191 (b - 192)
   else if b =? 224 then Lead 2 160 191 0
   else if between 225 236 b then Lead 2 128 191 (b - 224)
   else if b =? 237 then Lead 2 128 159 13
   else if between 238 239 b then Lead 2 128 191 (b - 224)
   else if b =? 240 then Lead 3 144 191 0
   else if between 241 243 b then Lead 3 128 191 (b - 240)
   else if b =? 244 then Lead 3 128 143 4
   else Bad)%N.

(** The decoder between two bytes: at a character boundary, or inside a
    sequence that still wants [more] bytes, the next one in [lo..hi]. *)
Inductive dstate :=
| Start
| Mid (more : nat) (lo hi : N) (bits : N).

Definition from_start (h : handler) (b : N) : result (option char * dstate) :=
  match lead_of b with
  | Single c => Ok (Some c, Start)
  | Lead more lo hi bits => Ok (None, Mid more lo hi bits)
  | Bad =>
      match h with
      | Strict => Raise UnicodeDecodeError
      | Ignore => Ok (None, Start)
      end
  end.

(** One byte.  A byte that cannot continue the sequence ends it: the
    strict decoder raises, the lenient one drops the sequence and takes
    the byte as a first byte. *)
Definition feed1 (h : handler) (st : dstate) (b : N)
  : result (option char * dstate) :=
  match st with
  | Start => from_start h b
  | Mid more lo hi bits =>
      if between lo hi b then
        let bits' := (bits * 64 + (b - 128))%N in
        match more with
        | S (S m) => Ok (None, Mid (S m) 128 191 bits')
        | _ => Ok (Some bits', Start)
        end
      else
        match h with
        | Strict => Raise UnicodeDecodeError
        | Ignore => from_start h b
        end
  end.

(** [decoder.decode(chunk)] *)
Fixpoint feed (h : handler) (st : dstate) (bs : list byte)
  : result (text * dstate) :=
  match bs with
  | [] => Ok ([], st)
  | b :: bs' =>
      r <- feed1 h st (Byte.to_N b) ;;
      r' <- feed h (snd r) bs' ;;
      Ok (match fst r with Some c => c :: fst r' | None => fst r' end, snd r')
  end.

(** [decoder.decode(b'', final=True)]: a sequence cut short by the end
    of the file. *)
Definition finish (h : handler) (st : dstate) : result unit :=
  match st, h with
  | Mid _ _ _ _, Strict => Raise UnicodeDecodeError
  | _, _ => Ok tt
  end.

(** Universal newlines: [\r\n] and [\r] become [\n]; a [\r] at the end
    of a chunk waits for the next one. *)
Fixpoint translate (t : text) : text :=
  match t with
  | [] => []
  | c :: r =>
      if (c =? 13)%N then
        match r with
        | d :: r' => if (d =? 10)%N then 10%N :: translate r'
                     else 10%N :: translate r
        | [] => [10%N]
        end
      else c :: translate r
  end.

Definition ends_with_cr (t : text) : bool :=
  match rev t with
  | c :: _ => (c =? 13)%N
  | [] => false
  end.

Definition newlines (pendingcr final : bool) (t : text) : text * bool :=
  let flush := pendingcr && (negb (match t with [] => true | _ => false end)
                             || final) in
  let t1 := if flush then 13%N :: t else t in
  let cr1 := if flush then false else pendingcr in
  if ends_with_cr t1 && negb final
  then (translate (removelast t1), true)
  else (translate t1, cr1).

(** The complete lines at the front of the decoded text, each with its
    [\n], and what follows the last of them. *)
Fixpoint split_lines (cur : text) (t : text) : list text * text :=
  match t with
  | [] => ([], cur)
  | c :: r =>
      if (c =? 10)%N
      then let x := split_lines [] r in ((cur ++ [c]) :: fst x, snd x)
      else split_lines (cur ++ [c]) r
  end.

Fixpoint chunks (fuel : nat) (bs : list byte) : list (list byte) :=
  match fuel with
  | O => []
  | S fuel' =>
      match bs with
      | [] => []
      | _ => firstn CHUNK_SIZE bs :: chunks fuel' (skipn CHUNK_SIZE bs)
      end
  end.

(** The reads of the buffer: every chunk holds a byte at least, so the
    length of the file is fuel enough. *)
Definition chunks_of (bs : list byte) : list (list byte) :=
  chunks (length bs) bs.

(** What the iteration over the file hands out: lines, and then perhaps
    the exception of a read. *)
Definition stream := (list text * option exn)%type.

Fixpoint read (h : handler) (cs : list (list byte))
  (st : dstate) (pendingcr : bool) (buf : text) : stream :=
  match cs with
  | [] =>
      match finish h st with
      | Raise e => ([], Some e)
      | Ok _ =>
          let t := fst (newlines pendingcr true []) in
          let x := split_lines buf t in
          (fst x ++ match snd x with [] => [] | rest => [rest] end, None)
      end
  | chunk :: cs' =>
      match feed h st chunk with
      | Raise e => ([], Some e)
      | Ok (t, st') =>
          let n := newlines pendingcr false t in
          let x := split_lines buf (fst n) in
          let s := read h cs' st' (snd n) (snd x) in
          (fst x ++ fst s, snd s)
      end
  end.

(** [open(path, encoding='utf-8', errors=h)], iterated. *)
Definition lines (h : handler) (bs : list byte) : stream :=
  read h (chunks_of bs) Start false [].


End TextIO.

Definition B (s : string) : list byte := list_byte_of_string s.

(** ** What the scripts hand to pyplot

    matplotlib is not part of the repository.  A figure is the list of
    the series drawn on it, each with the label it was given;
    [plt.step(x, y)] draws whatever lists it gets, of any length, as
    long as they have the same length, and raises a [ValueError]
    otherwise. *)
Module Plt.

Record line := mk_line
  { xs : list Q; ys : list Z; label : option text }.

Definition figure := list line.

Definition step (x : list Q) (y : list Z) (lbl : option text) (fig : figure)
  : result figure :=
  if (length x =? length y)%nat then Ok (fig ++ [mk_line x y lbl])
  else Raise ValueError.

End Plt.

(** How a script ends: [sys.exit(msg)], an exception nobody catches, the
    window of [plt.show()], or the image written by [plt.savefig]. *)
Inductive outcome :=
| Exited (msg : text)
| Uncaught (e : exn)
| Shown (fig : Plt.figure)
| Saved (path : text) (fig : Plt.figure).

(** The exit status of the process: [sys.exit] with a string prints it
    on the error stream and exits with 1, as an uncaught exception
    does. *)
Definition exit_status (o : outcome) : Z :=
  match o with
  | Exited _ | Uncaught _ => 1
  | Shown _ | Saved _ _ => 0
  end.

(** The files the scripts can see. *)
Record filesystem := mk_fs
  { file : text -> option (list byte); is_dir : text -> bool }.

Definition exists_path (f : filesystem) (p : text) : bool :=
  match file f p with Some _ => true | None => is_dir f p end.

(** ** plot.py: the parse loop

    The script's module-level variables [times], [totals], [t0] and
    [total_bytes] are the fields of [state]; [body] is one iteration of
    [for line in f]. *)
Module Plot.

Record state := mk_state
  { times : list Q; totals : list Z; t0 : option datetime; total_bytes : Z }.

Definition init : state := mk_state [] [] None 0.

Definition THRESHOLD : Z := 12 * 1024 * 1024.

(** How an iteration ends: [continue] or falling off its end, or [break]. *)
Inductive flow :=
| Next (st : state)
| Break (st : state).

(** 1) Grab the very first timestamp we encounter, whatever the line. *)
Definition anchor (st : state) (line : text) : result state :=
  match t0 st with
  | Some _ => Ok st
  | None =>
      match rmatch ts_rx line with
      | None => Ok st
      | Some m0 =>
          g <- group m0 "ts" ;;
          t <- strptime g ;;
          Ok (mk_state (times st ++ [total_seconds (sub_datetime t t)])
                       (totals st ++ [0])
                       (Some t)
                       (total_bytes st))
      end
  end.

(** 2) Process only the Recv-data lines.  [ts - t0] with [t0] still
    [None] would be a [TypeError]. *)
Definition body (st : state) (line : text) : result flow :=
  st1 <- anchor st line ;;
  match rmatch data_rx line with
  | None => Ok (Next st1)
  | Some m =>
      g <- group m "ts" ;;
      ts <- strptime g ;;
      a <- of_option TypeError (t0 st1) ;;
      let elapsed := total_seconds (sub_datetime ts a) in
      b <- group m "bytes" ;;
      n <- int b ;;
      let total := total_bytes st1 + n in
      let st2 := mk_state (times st1 ++ [elapsed]) (totals st1 ++ [total])
                          (t0 st1) total in
      if total >? THRESHOLD then Ok (Break st2) else Ok (Next st2)
  end.

(** How the [for] loop ended. *)
Inductive ending := Exhausted | Broke.

Fixpoint loop (st : state) (lines : list text) : result (ending * state) :=
  match lines with
  | [] => Ok (Exhausted, st)
  | line :: rest =>
      f <- body st line ;;
      match f with
      | Next st' => loop st' rest
      | Break st' => Ok (Broke, st')
      end
  end.

(** The samples handed to [plt.step]. *)
Definition series (st : state) : list (Q * Z) := combine (times st) (totals st).

(** The lines come from the file as the loop asks for them: a read
    that fails raises only if the loop gets to it. *)
Definition parse_stream (s : TextIO.stream) : result state :=
  r <- loop init (fst s) ;;
  match r with
  | (Broke, st) => Ok st
  | (Exhausted, st) =>
      match snd s with
      | Some e => Raise e
      | None => Ok st
      end
  end.

(** [with open(logfile, encoding='utf-8') as f: for line in f: ...] *)
Definition parse (bs : list byte) : result state :=
  parse_stream (TextIO.lines TextIO.Strict bs).

Definition USAGE : text := T "Usage:  python plot_rx.py logfile [outfile.png]".

(** The script, from its command line; the labels and the grid of the
    chart are left out. *)
Definition main (argv : list text) (f : filesystem) : outcome :=
  match argv with
  | _ :: logfile :: rest =>
      let save_to := match rest with p :: _ => Some p | [] => None end in
      match file f logfile with
      | None => Uncaught FileNotFoundError
      | Some bs =>
          match (st <- parse bs ;; Plt.step (times st) (totals st) None []) with
          | Raise e => Uncaught e
          | Ok fig =>
              match save_to with
              | Some (c :: p) => Saved (c :: p) fig
              | _ => Shown fig
              end
          end
      end
  | _ => Exited USAGE
  end.

End Plot.

(** ** run_traces.py: [parse_log] *)
Module RunTraces.

(** Keep this in sync with the list printed by trace.sh *)
Definition ALLOWED_FILES : list text := [T "1K.bin"; T "1M.bin"; T "1G.bin"].

Definition TRACE_DIR : text := T "traces".
Definition TRACE_SH : text := T "trace.sh".

Record state := mk_state
  { times : list Q; totals : list Z; t0 : option datetime; cum : Z }.

Definition init : state := mk_state [] [] None 0.

(** Start at the first timestamp we see (not necessarily Recv data). *)
Definition anchor (st : state) (line : text) : result state :=
  match t0 st with
  | Some _ => Ok st
  | None =>
      match rmatch ANY_TS line with
      | None => Ok st
      | Some m0 =>
          g <- group m0 "ts" ;;
          t <- strptime g ;;
          Ok (mk_state (times st) (totals st) (Some t) (cum st))
      end
  end.

Definition body (st : state) (line : text) : result state :=
  st1 <- anchor st line ;;
  match rmatch RECV_DATA line with
  | None => Ok st1
  | Some m =>
      g <- group m "ts" ;;
      ts <- strptime g ;;
      a <- of_option TypeError (t0 st1) ;;
      let times' := times st1 ++ [total_seconds (sub_datetime ts a)] in
      b <- group m "bytes" ;;
      n <- int b ;;
      let cum' := cum st1 + n in
      Ok (mk_state times' (totals st1 ++ [cum']) (t0 st1) cum')
  end.

Fixpoint loop (st : state) (lines : list text) : result state :=
  match lines with
  | [] => Ok st
  | line :: rest => st' <- body st line ;; loop st' rest
  end.

(** [parse_log], on the lines the file object yields. *)
Definition parse_lines (lines : list text) : result (list Q * list Z) :=
  st <- loop init lines ;;
  Ok (times st, totals st).

Definition series (r : list Q * list Z) : list (Q * Z) := combine (fst r) (snd r).

Definition parse_stream (s : TextIO.stream) : result (list Q * list Z) :=
  r <- parse_lines (fst s) ;;
  match snd s with
  | Some e => Raise e
  | None => Ok r
  end.

(** [parse_log(path)]: the file is opened with [errors="ignore"]. *)
Definition parse_log (f : filesystem) (path : text)
  : result (list Q * list Z) :=
  bs <- of_option FileNotFoundError (file f path) ;;
  parse_stream (TextIO.lines TextIO.Ignore bs).

(** What the process can see and do: the files, the commands it has run
    and the lines it has printed. *)
Record world := mk_world
  { fs : filesystem; calls : list (list text); stdout : list text }.

(** [path.mkdir(exist_ok=True)] *)
Definition mkdir (f : filesystem) (p : text) : filesystem :=
  mk_fs (file f) (fun q => text_eqb q p || is_dir f q).

(** [TRACE_DIR / name] *)
Definition joinpath (dir name : text) : text := dir ++ T "/" ++ name.

(** [TRACE_DIR / f"{file_name}_{run_idx}.log"], for a name without a
    slash, as the allowed names are: its parent is [TRACE_DIR]. *)
Definition log_path_of (file_name : text) (run_idx : Z) : text :=
  joinpath TRACE_DIR (file_name ++ T "_" ++ str run_idx ++ T ".log").

Definition command (file_name : text) (run_idx : Z) : list text :=
  [T "bash"; TRACE_SH; file_name; log_path_of file_name run_idx].

Section Collector.

(** The collector is somebody else's program: [status] is the exit
    status of a command line, [effect] what running it does to the
    files. *)
Variable status : list text -> Z.
Variable effect : filesystem -> list text -> filesystem.

(** [subprocess.run(cmd, check=True)] *)
Definition subprocess_run (cmd : list text) (w : world) : result unit * world :=
  let w' := mk_world (effect (fs w) cmd) (calls w ++ [cmd]) (stdout w) in
  if status cmd =? 0 then (Ok tt, w') else (Raise CalledProcessError, w').

(** Invoke trace.sh for one run and return the resulting log path. *)
Definition run_trace (file_name : text) (run_idx : Z) (w : world)
  : result text * world :=
  let log_path := log_path_of file_name run_idx in
  let w1 := mk_world (mkdir (fs w) TRACE_DIR) (calls w) (stdout w) in
  let w2 := mk_world (fs w1) (calls w1)
              (stdout w1 ++ [T "[run_traces] Collecting run " ++ str run_idx
                             ++ T ": " ++ file_name ++ T " " ++ [8594%N]
                             ++ T " " ++ log_path]) in
  match subprocess_run (command file_name run_idx) w2 with
  | (Ok _, w3) => (Ok log_path, w3)
  | (Raise e, w3) => (Raise e, w3)
  end.

(** [range(n)] *)
Definition range (n : Z) : list Z := map Z.of_nat (List.seq 0 (Z.to_nat n)).

(** [[run_trace(file_name, i + 1) for i in idxs]] *)
Fixpoint collect (file_name : text) (idxs : list Z) (w : world)
  : result (list text) * world :=
  match idxs with
  | [] => (Ok [], w)
  | i :: rest =>
      match run_trace file_name (i + 1) w with
      | (Raise e, w1) => (Raise e, w1)
      | (Ok p, w1) =>
          match collect file_name rest w1 with
          | (Ok ps, w2) => (Ok (p :: ps), w2)
          | (Raise e, w2) => (Raise e, w2)
          end
      end
  end.

(** [for idx, log in enumerate(logs, idx): ... plt.step(t, b, label=...)] *)
Fixpoint overlay (f : filesystem) (logs : list text) (idx : Z)
  (fig : Plt.figure) : result Plt.figure :=
  match logs with
  | [] => Ok fig
  | log :: rest =>
      r <- parse_log f log ;;
      fig' <- Plt.step (fst r) (snd r) (Some (T "trace " ++ str idx)) fig ;;
      overlay f rest (idx + 1) fig'
  end.

(** [n_runs = int(sys.argv[2]); assert n_runs > 0], with the two
    exceptions the script catches. *)
Definition run_count (arg : text) : option Z :=
  match int arg with
  | Ok n => if n >? 0 then Some n else None
  | Raise _ => None
  end.

Fixpoint insert_sorted (x : text) (l : list text) : list text :=
  match l with
  | [] => [x]
  | y :: l' =>
      match list_compare N.compare x y with
      | Gt => y :: insert_sorted x l'
      | _ => x :: l
      end
  end.

Definition sorted (l : list text) : list text := fold_right insert_sorted [] l.

Fixpoint join (sep : text) (l : list text) : text :=
  match l with
  | [] => []
  | [x] => x
  | x :: l' => x ++ sep ++ join sep l'
  end.

Definition mem (x : text) (l : list text) : bool := existsb (text_eqb x) l.

Definition USAGE : text := T "Usage: python run_traces.py <FILE> <N> [outfile.png]".
Definition BAD_COUNT : text := T "<N> must be a positive integer".
Definition BAD_FILE (file_name : text) : text :=
  T "File '" ++ file_name ++ T "' is not in ALLOWED_FILES (" ++ [10%N]
  ++ T "  " ++ join (T ", ") (sorted ALLOWED_FILES) ++ T ")".
Definition NO_SCRIPT : text :=
  T "Cannot find " ++ TRACE_SH ++ T ". Expected it next to this script.".

(** [main()].  Of the end of the script, the labels, the legend and the
    directories made for the image are left out. *)
Definition main (argv : list text) (w : world) : outcome * world :=
  match argv with
  | _ :: file_name :: n :: rest =>
      match run_count n with
      | None => (Exited BAD_COUNT, w)
      | Some n_runs =>
          if negb (mem file_name ALLOWED_FILES)
          then (Exited (BAD_FILE file_name), w)
          else
            let out_png := match rest with p :: _ => Some p | [] => None end in
            if negb (exists_path (fs w) TRACE_SH) then (Exited NO_SCRIPT, w)
            else
              (* Collect logs *)
              match collect file_name (range n_runs) w with
              | (Raise e, w1) => (Uncaught e, w1)
              | (Ok logs, w1) =>
                  (* Build the overlay plot *)
                  match overlay (fs w1) logs 1 [] with
                  | Raise e => (Uncaught e, w1)
                  | Ok fig =>
                      match out_png with
                      | Some p =>
                          (Saved p fig,
                           mk_world (fs w1) (calls w1)
                             (stdout w1
                              ++ [T "[run_traces] Plot written to " ++ p]))
                      | None => (Shown fig, w1)
                      end
                  end
              end
      end
  | _ => (Exited USAGE, w)
  end.

End Collector.

End RunTraces.

(** * The reading of a log

    Definitions the properties are stated with. *)

(** [l] and [m] have the same length and agree position by position. *)
Fixpoint fits (l : list atom) (m : text) : bool :=
  match l, m with
  | [], [] => true
  | a :: l', c :: m' => sat a c && fits l' m'
  | _, _ => false
  end.

(** Patterns without choice: fixed repetitions and single characters. *)
Definition fixed (r : rx) : bool :=
  match r with
  | One _ | Times _ _ => true
  | _ => false
  end.

(** The shape [\d{2}:\d{2}:\d{2}\.\d{6}] of a matched timestamp. *)
Definition ts_ok (ts : text) : bool :=
  match ts with
  | [h1; h2; c1; m1; m2; c2; s1; s2; d; f1; f2; f3; f4; f5; f6] =>
      is_digit h1 && is_digit h2 && (c1 =? chr ":")%N
      && is_digit m1 && is_digit m2 && (c2 =? chr ":")%N
      && is_digit s1 && is_digit s2 && (d =? chr ".")%N
      && is_digit f1 && is_digit f2 && is_digit f3
      && is_digit f4 && is_digit f5 && is_digit f6
  | _ => false
  end.

(** The data pattern after its timestamp. *)
Definition data_tail : pattern := tl data_rx.

(** The value of a digit. *)
Definition dig (c : char) : Z := Z.of_N c - 48.

(** The number a run of digits denotes. *)
Definition value_from (acc : Z) (s : text) : Z :=
  fold_left (fun a c => 10 * a + dig c) s acc.

Definition value (s : text) : Z := value_from 0 s.

(** The fields of a timestamp [HH:MM:SS.ffffff], as numbers. *)
Definition ts_hour (ts : text) : Z := value (firstn 2 ts).
Definition ts_minute (ts : text) : Z := value (firstn 2 (skipn 3 ts)).
Definition ts_second (ts : text) : Z := value (firstn 2 (skipn 6 ts)).
Definition ts_micro (ts : text) : Z := value (skipn 9 ts).

(** The timestamp of a line the anchor pattern matches. *)
Definition stamp (line : text) : option text :=
  match rmatch ts_rx line with
  | Some m => lookup "ts" (fst m)
  | None => None
  end.

(** The timestamp and the byte count of a data-receipt line. *)
Definition recv (line : text) : option (text * Z) :=
  match rmatch data_rx line with
  | Some m =>
      match lookup "ts" (fst m), lookup "bytes" (fst m) with
      | Some ts, Some b => option_map (pair ts) (py_int b)
      | _, _ => None
      end
  | None => None
  end.

(** The time of day a well-shaped timestamp denotes. *)
Definition time_of (ts : text) : datetime :=
  mk_datetime (ts_hour ts) (ts_minute ts) (ts_second ts) (ts_micro ts).

Definition valid_time (ts : text) : bool :=
  (ts_hour ts <? 24) && (ts_minute ts <? 60) && (ts_second ts <? 60).

(** The reading of a log the specification gives: its anchor is the
    first timestamp, its events are the data-receipt lines in file
    order, and the cumulative totals are running sums. *)
Fixpoint first_stamp (log : list text) : option text :=
  match log with
  | [] => None
  | l :: rest =>
      match stamp l with
      | Some ts => Some ts
      | None => first_stamp rest
      end
  end.

(** The log from its anchor line on. *)
Fixpoint from_stamp (log : list text) : list text :=
  match log with
  | [] => []
  | l :: rest =>
      match stamp l with
      | Some _ => log
      | None => from_stamp rest
      end
  end.

Definition event := (text * Z)%type.

Definition events (log : list text) : list event :=
  flat_map (fun l => match recv l with Some e => [e] | None => [] end) log.

(** Running sums, from [acc]. *)
Fixpoint sums (acc : Z) (l : list Z) : list Z :=
  match l with
  | [] => []
  | n :: rest => (acc + n) :: sums (acc + n) rest
  end.

(** The events up to and including the first that takes the total over
    the bound. *)
Fixpoint upto_crossing (bound acc : Z) (evs : list event) : list event :=
  match evs with
  | [] => []
  | (ts, n) :: rest =>
      if acc + n >? bound then [(ts, n)]
      else (ts, n) :: upto_crossing bound (acc + n) rest
  end.

Fixpoint crosses (bound acc : Z) (evs : list event) : bool :=
  match evs with
  | [] => false
  | (ts, n) :: rest =>
      if acc + n >? bound then true else crosses bound (acc + n) rest
  end.

Definition elapsed (a : datetime) (ts : text) : Q :=
  total_seconds (sub_datetime (time_of ts) a).

Definition all_valid (evs : list event) : bool :=
  forallb (fun e => valid_time (fst e)) evs.

Definition total (acc : Z) (evs : list event) : Z :=
  fold_left Z.add (map snd evs) acc.

(** The state of plot.py after the events [evs], from a state anchored
    at [a]. *)
Definition plot_after (st : Plot.state) (a : datetime) (evs : list event)
  : Plot.state :=
  Plot.mk_state (Plot.times st ++ map (elapsed a) (map fst evs))
                (Plot.totals st ++ sums (Plot.total_bytes st) (map snd evs))
                (Some a)
                (total (Plot.total_bytes st) evs).

Definition plot_anchored (st : Plot.state) (t : datetime) : Plot.state :=
  Plot.mk_state (Plot.times st ++ [0%Q]) (Plot.totals st ++ [0]) (Some t)
                (Plot.total_bytes st).

(** plot.py, as the specification reads it. *)
Definition plot_spec (log : list text) : result (Plot.ending * Plot.state) :=
  match first_stamp log with
  | None => Ok (Plot.Exhausted, Plot.init)
  | Some ts0 =>
      let evs := upto_crossing Plot.THRESHOLD 0 (events log) in
      if valid_time ts0 && all_valid evs then
        Ok (if crosses Plot.THRESHOLD 0 (events log)
            then Plot.Broke else Plot.Exhausted,
            plot_after (plot_anchored Plot.init (time_of ts0))
                       (time_of ts0) evs)
      else Raise ValueError
  end.

(** [parse_log], as the code has it: no sample for the anchor. *)
Definition parse_spec (log : list text) : result (list Q * list Z) :=
  match first_stamp log with
  | None => Ok ([], [])
  | Some ts0 =>
      let evs := events log in
      if valid_time ts0 && all_valid evs then
        Ok (map (elapsed (time_of ts0)) (map fst evs), sums 0 (map snd evs))
      else Raise ValueError
  end.

Definition plot_sample (st : Plot.state) (a d : datetime) (n : Z) : Plot.state :=
  Plot.mk_state (Plot.times st ++ [total_seconds (sub_datetime d a)])
                (Plot.totals st ++ [Plot.total_bytes st + n])
                (Plot.t0 st)
                (Plot.total_bytes st + n).

Definition parse_anchored (st : RunTraces.state) (t : datetime)
  : RunTraces.state :=
  RunTraces.mk_state (RunTraces.times st) (RunTraces.totals st) (Some t)
                     (RunTraces.cum st).

Definition parse_sample (st : RunTraces.state) (a d : datetime) (n : Z)
  : RunTraces.state :=
  RunTraces.mk_state
    (RunTraces.times st ++ [total_seconds (sub_datetime d a)])
    (RunTraces.totals st ++ [RunTraces.cum st + n])
    (RunTraces.t0 st)
    (RunTraces.cum st + n).

Definition parse_after (st : RunTraces.state) (a : datetime)
  (evs : list event) : RunTraces.state :=
  RunTraces.mk_state
    (RunTraces.times st ++ map (elapsed a) (map fst evs))
    (RunTraces.totals st ++ sums (RunTraces.cum st) (map snd evs))
    (Some a)
    (total (RunTraces.cum st) evs).

(** ** Example logs *)

(** End-to-end scenario 1 of the specification. *)
Definition log_scenario1 : list text :=
  [T "10:00:00.000000 == Info: Connected";
   T "10:00:00.500000 <= Recv data, 1024 bytes"].

(** A log that crosses the threshold on its second data line. *)
Definition log_crossing : list text :=
  [T "10:00:00.000000 => Send header, 78 bytes";
   T "10:00:01.000000 <= Recv data, 12000000 bytes";
   T "10:00:02.250000 <= Recv data, 600000 bytes";
   T "10:00:03.000000 <= Recv data, 5 bytes"].

(** A transfer over midnight. *)
Definition log_midnight : list text :=
  [T "23:59:59.900000 == Info: Connected";
   T "00:00:00.100000 <= Recv data, 10 bytes"].

(** What plot.py holds after [log_crossing]. *)
Definition mk_plot_crossing : Plot.state :=
  Plot.mk_state [0%Q; 1%Q; 9 # 4] [0; 12000000; 12600000]
                (Some (mk_datetime 10 0 0 0)) 12600000.

(** [log_crossing] before its crossing line, and what plot.py holds
    there. *)
Definition log_before_crossing : list text := firstn 2 log_crossing.

Definition mk_plot_before : Plot.state :=
  Plot.mk_state [0%Q; 1%Q] [0; 12000000] (Some (mk_datetime 10 0 0 0)) 12000000.



(** ** The runs of the collector *)

(** The run indices of [n] runs: 1, 2, ..., n. *)
Definition run_indices (n : Z) : list Z :=
  map Z.of_nat (List.seq 1 (Z.to_nat n)).

(** The elements of a list up to and including the first that satisfies
    [p]. *)
Fixpoint until {A} (p : A -> bool) (l : list A) : list A :=
  match l with
  | [] => []
  | x :: rest => if p x then [x] else x :: until p rest
  end.

(** The collector fails on run [i] of [file_name]. *)
Definition fails (status : list text -> Z) (file_name : text) (i : Z) : bool :=
  negb (status (RunTraces.command file_name i) =? 0).

(** A world for the examples: trace.sh is there, nothing else. *)
Definition fs0 : filesystem :=
  mk_fs (fun p => if text_eqb p (T "trace.sh") then Some [] else None)
        (fun _ => false).

Definition world0 : RunTraces.world := RunTraces.mk_world fs0 [] [].

(** The bytes of scenario 1, as curl writes them. *)
Definition file_scenario1 : list byte :=
  B "10:00:00.000000 == Info: Connected" ++ [x0a]
  ++ B "10:00:00.500000 <= Recv data, 1024 bytes" ++ [x0a].

(** A collector that always succeeds and writes the log of scenario 1
    where it is told to. *)
Definition write_scenario1 (f : filesystem) (cmd : list text) : filesystem :=
  mk_fs (fun p => if text_eqb p (nth 3 cmd []) then Some file_scenario1
                  else file f p)
        (is_dir f).

(** ** Kinds of lines *)

(** The line starts with a timestamp. *)
Definition has_stamp (l : text) : bool :=
  match stamp l with Some _ => true | None => false end.

(** The line is a data-receipt line. *)
Definition is_data (l : text) : bool :=
  match recv l with Some _ => true | None => false end.




(** The characters [str] writes an integer with. *)
Definition sign_or_digit (c : char) : bool := (c =? chr "-")%N || is_digit c.

(** One timestamp is no later in the day than another. *)
Definition no_later (ts1 ts2 : text) : Prop :=
  micros (time_of ts1) <= micros (time_of ts2).

(** The line of the chart for the series [r] of trace [idx]. *)
Definition trace_line (idx : Z) (r : list Q * list Z) : Plt.line :=
  Plt.mk_line (fst r) (snd r) (Some (T "trace " ++ str idx)).

(** The lines of a chart that overlays the series [rs], numbered from
    [idx]. *)
Definition overlaid (idx : Z) (rs : list (list Q * list Z)) : Plt.figure :=
  map (fun kr => trace_line (idx + Z.of_nat (fst kr)) (snd kr))
      (combine (List.seq 0 (length rs)) rs).

(** What [main] checks before it does any work: the argument count,
    the run count, the allow-list and the collector script. *)
Definition usage_error (argv : list text) (w : RunTraces.world) : Prop :=
  (length argv < 3)%nat
  \/ (exists a, nth_error argv 2 = Some a
                /\ ~ (exists n, py_int a = Some n /\ 0 < n))
  \/ (exists name, nth_error argv 1 = Some name
                   /\ name <> T "1K.bin" /\ name <> T "1M.bin"
                   /\ name <> T "1G.bin")
  \/ exists_path (RunTraces.fs w) (T "trace.sh") = false.

(** The chart a script ends with, if it does. *)
Definition charted (o : outcome) : option Plt.figure :=
  match o with
  | Shown fig | Saved _ fig => Some fig
  | _ => None
  end.

(** A log with a line between the anchor and the data that starts with
    no timestamp, and one that starts with a later timestamp. *)
Definition log_noisy : list text :=
  [T "* Connected to example.org"; T "10:00:00.000000 == Info: Connected";
   T "0000: 48 54 54 50"; T "10:00:00.250000 => Send header, 78 bytes";
   T "10:00:00.500000 <= Recv data, 1024 bytes"].

(** * Properties *)

(** ** The matcher *)

Lemma in_map_push c m r l :
  In (m, r) (map (push c) l) <-> exists m', m = c :: m' /\ In (m', r) l.
Proof.
  rewrite in_map_iff. split.
  - intros [[m' r'] [E H]]. unfold push in E. simpl in E.
    inversion E; subst. eauto.
  - intros [m' [-> H]]. exists (m', r). auto.
Qed.

Lemma in_one a s m r :
  In (m, r) (one a s) <-> exists c, m = [c] /\ s = c :: r /\ sat a c = true.
Proof.
  unfold one. destruct s as [|c s].
  - simpl. split; [tauto|]. intros [c [_ [H _]]]. discriminate.
  - destruct (sat a c) eqn:E; simpl.
    + split.
      * intros [H|[]]. inversion H; subst. eauto.
      * intros [c' [-> [H _]]]. inversion H; subst. auto.
    + split; [tauto|]. intros [c' [_ [H S]]]. inversion H; subst. congruence.
Qed.

Lemma in_times n a : forall s m r,
  In (m, r) (times n a s) <->
  s = m ++ r /\ length m = n /\ forallb (sat a) m = true.
Proof.
  induction n as [|n IH]; intros s m r; simpl.
  - split.
    + intros [H|[]]. inversion H; subst. auto.
    + intros [-> [L _]]. destruct m; [auto|discriminate].
  - destruct s as [|c s].
    + simpl. split; [tauto|]. intros [E [L _]].
      destruct m; [discriminate L|discriminate E].
    + destruct (sat a c) eqn:E.
      * rewrite in_map_push. split.
        -- intros [m' [-> H]]. apply IH in H. destruct H as [-> [L F]].
           simpl. rewrite E, L, F. auto.
        -- intros [S [L F]]. destruct m as [|c' m']; [discriminate L|].
           simpl in S, L, F. inversion S; subst.
           apply andb_true_iff in F. destruct F as [_ F].
           exists m'. split; [reflexivity|]. apply IH. auto.
      * simpl. split; [tauto|]. intros [S [L F]].
        destruct m as [|c' m']; [discriminate L|].
        simpl in S, F. inversion S; subst. rewrite E in F. discriminate.
Qed.

(** Every success of a class repetition, bounded or not, is a non-empty
    run of the class at the start of the subject. *)
Lemma in_plus a : forall s m r,
  In (m, r) (plus a s) <->
  s = m ++ r /\ m <> [] /\ forallb (sat a) m = true.
Proof.
  induction s as [|c s IH]; intros m r; simpl.
  - split; [tauto|]. intros [E [N _]]. destruct m; [congruence|discriminate].
  - destruct (sat a c) eqn:E.
    + rewrite in_app_iff, in_map_push. simpl. split.
      * intros [[m' [-> H]]|[H|[]]].
        -- apply IH in H. destruct H as [-> [N F]]. simpl. rewrite E, F.
           repeat split; congruence.
        -- inversion H; subst. simpl. rewrite E. repeat split; congruence.
      * intros [S [N F]]. destruct m as [|c' m']; [congruence|].
        simpl in S, F. inversion S; subst.
        apply andb_true_iff in F. destruct F as [_ F].
        destruct m' as [|c'' m''].
        -- right. left. reflexivity.
        -- left. exists (c'' :: m''). split; [reflexivity|].
           apply IH. repeat split; [congruence|assumption].
    + simpl. split; [tauto|]. intros [S [N F]].
      destruct m as [|c' m']; [congruence|].
      simpl in S, F. inversion S; subst. rewrite E in F. discriminate.
Qed.

Lemma in_upto n a : forall s m r,
  In (m, r) (upto n a s) <->
  s = m ++ r /\ m <> [] /\ (length m <= n)%nat /\ forallb (sat a) m = true.
Proof.
  induction n as [|n IH]; intros s m r; simpl.
  - split; [tauto|]. intros [_ [N [L _]]]. destruct m; [congruence|simpl in L; lia].
  - destruct s as [|c s].
    + simpl. split; [tauto|]. intros [E [N _]].
      destruct m; [congruence|discriminate].
    + destruct (sat a c) eqn:E.
      * rewrite in_app_iff, in_map_push. simpl. split.
        -- intros [[m' [-> H]]|[H|[]]].
           ++ apply IH in H. destruct H as [-> [N [L F]]]. simpl.
              rewrite E, F. repeat split; try congruence. lia.
           ++ inversion H; subst. simpl. rewrite E.
              repeat split; try congruence. lia.
        -- intros [S [N [L F]]]. destruct m as [|c' m']; [congruence|].
           simpl in S, L, F. inversion S; subst.
           apply andb_true_iff in F. destruct F as [_ F].
           destruct m' as [|c'' m''].
           ++ right. left. reflexivity.
           ++ left. exists (c'' :: m''). split; [reflexivity|].
              apply IH. repeat split; [congruence|lia|assumption].
      * simpl. split; [tauto|]. intros [S [N [L F]]].
        destruct m as [|c' m']; [congruence|].
        simpl in S, F. inversion S; subst. rewrite E in F. discriminate.
Qed.

Lemma in_atoms l : forall s m r,
  In (m, r) (atoms l s) <-> s = m ++ r /\ fits l m = true.
Proof.
  induction l as [|a l IH]; intros s m r; simpl.
  - split.
    + intros [H|[]]. inversion H; subst. auto.
    + intros [-> F]. destruct m; [auto|discriminate].
  - destruct s as [|c s].
    + simpl. split; [tauto|]. intros [E F].
      destruct m; [discriminate F|discriminate E].
    + destruct (sat a c) eqn:E.
      * rewrite in_map_push. split.
        -- intros [m' [-> H]]. apply IH in H. destruct H as [-> F].
           simpl. rewrite E, F. auto.
        -- intros [S F]. destruct m as [|c' m']; [discriminate F|].
           simpl in S. inversion S; subst.
           apply andb_true_iff in F. destruct F as [_ F].
           exists m'. split; [reflexivity|]. apply IH. auto.
      * simpl. split; [tauto|]. intros [S F].
        destruct m as [|c' m']; [discriminate F|].
        simpl in S. inversion S; subst. rewrite E in F. discriminate.
Qed.

Lemma in_seq_cons x rs s m r :
  In (m, r) (seq (x :: rs) s) <->
  exists m1 s1 m2,
    In (m1, s1) (step x s) /\ In (m2, r) (seq rs s1) /\ m = m1 ++ m2.
Proof.
  simpl. rewrite in_flat_map. split.
  - intros [[m1 s1] [H1 H2]]. simpl in H2. apply in_map_iff in H2.
    destruct H2 as [[m2 r2] [E H2]]. unfold glue in E. simpl in E.
    inversion E; subst. exists m1, s1, m2. auto.
  - intros [m1 [s1 [m2 [H1 [H2 ->]]]]]. exists (m1, s1). split; [assumption|].
    simpl. apply in_map_iff. exists (m2, r). auto.
Qed.

Lemma in_seq_nil s m r : In (m, r) (seq [] s) <-> m = [] /\ r = s.
Proof.
  simpl. split.
  - intros [H|[]]. inversion H; auto.
  - intros [-> ->]. auto.
Qed.

Lemma in_run_plain x p s m :
  In m (run (Plain x :: p) s) <->
  exists m1 s1, In (m1, s1) (step x s) /\ In m (run p s1).
Proof.
  simpl. rewrite in_flat_map. split.
  - intros [[m1 s1] [H1 H2]]. eauto.
  - intros [m1 [s1 [H1 H2]]]. exists (m1, s1). auto.
Qed.

Lemma in_run_group name rs p s m :
  In m (run (Group name rs :: p) s) <->
  exists m1 s1 m', In (m1, s1) (seq rs s) /\ In m' (run p s1)
                   /\ m = bind_group name m1 m'.
Proof.
  simpl. rewrite in_flat_map. split.
  - intros [[m1 s1] [H1 H2]]. simpl in H2. apply in_map_iff in H2.
    destruct H2 as [m' [E H2]]. exists m1, s1, m'. auto.
  - intros [m1 [s1 [m' [H1 [H2 ->]]]]]. exists (m1, s1). split; [assumption|].
    simpl. apply in_map_iff. eauto.
Qed.

Lemma in_run_nil s m : In m (run [] s) <-> m = ([], s).
Proof. simpl. split; [intros [H|[]]; auto | intros ->; auto]. Qed.

Lemma hd_error_in {A} (l : list A) (x : A) : hd_error l = Some x -> In x l.
Proof. destruct l; simpl; [discriminate|]. intros H. inversion H. auto. Qed.

Lemma times_unique n a : forall s, (length (times n a s) <= 1)%nat.
Proof.
  induction n as [|n IH]; intros s; simpl; [lia|].
  destruct s as [|c s]; simpl; [lia|].
  destruct (sat a c); simpl; [|lia]. rewrite length_map. apply IH.
Qed.

Lemma step_unique r s : fixed r = true -> (length (step r s) <= 1)%nat.
Proof.
  destruct r; simpl; try discriminate; intros _.
  - unfold one. destruct s as [|c s]; simpl; [lia|].
    destruct (sat a c); simpl; lia.
  - apply times_unique.
Qed.

Lemma seq_unique rs : forall s,
  forallb fixed rs = true -> (length (seq rs s) <= 1)%nat.
Proof.
  induction rs as [|r rs IH]; intros s F; simpl; [lia|].
  simpl in F. apply andb_true_iff in F. destruct F as [Fr Frs].
  pose proof (step_unique r s Fr) as L.
  destruct (step r s) as [|x [|y l]]; simpl in *; try lia.
  rewrite app_nil_r, length_map. apply IH. assumption.
Qed.

Lemma seq_TS_BODY_unique s x :
  In x (seq TS_BODY s) -> seq TS_BODY s = [x].
Proof.
  intros H. pose proof (seq_unique TS_BODY s eq_refl) as L.
  destruct (seq TS_BODY s) as [|y [|z l]]; simpl in *; try lia; try tauto.
  destruct H as [->|[]]. reflexivity.
Qed.

Ltac list_of_length :=
  repeat match goal with
         | H : length ?m = S _ |- _ =>
             destruct m; [discriminate H|]; simpl in H;
             apply Nat.succ_inj in H
         | H : length ?m = O |- _ =>
             destruct m; [clear H|discriminate H]
         end.

Lemma seq_TS_BODY_sound s ts rest :
  In (ts, rest) (seq TS_BODY s) -> s = ts ++ rest /\ ts_ok ts = true.
Proof.
  unfold TS_BODY. intros H.
  repeat (apply in_seq_cons in H;
          destruct H as (? & ? & ? & ? & H & ?); subst).
  apply in_seq_nil in H. destruct H; subst.
  unfold step in *.
  repeat match goal with
         | H : In _ (times _ _ _) |- _ =>
             apply in_times in H; destruct H as (? & ? & ?); subst
         | H : In _ (one _ _) |- _ =>
             apply in_one in H; destruct H as (? & ? & ? & ?); subst
         end.
  list_of_length.
  simpl in *.
  repeat match goal with
         | H : _ && _ = true |- _ => apply andb_true_iff in H; destruct H
         end.
  split.
  - repeat match goal with H : _ :: _ = _ |- _ => rewrite H; clear H end.
    reflexivity.
  - repeat match goal with H : _ = true |- _ => rewrite H; clear H end.
    reflexivity.
Qed.

(** ** The two patterns of the scripts *)

Lemma data_rx_split : data_rx = Group "ts" TS_BODY :: data_tail.
Proof. reflexivity. Qed.

Lemma rmatch_ts_rx s :
  rmatch ts_rx s =
  match seq TS_BODY s with
  | [] => None
  | x :: _ => Some ([("ts"%string, fst x)], snd x)
  end.
Proof.
  unfold rmatch, ts_rx.
  change (run [Group "ts" TS_BODY] s)
    with (flat_map (fun x => map (bind_group "ts" (fst x)) [([], snd x)])
                   (seq TS_BODY s)).
  destruct (seq TS_BODY s); reflexivity.
Qed.

(** What a match of the anchor pattern holds. *)
Lemma ts_rx_match s m :
  rmatch ts_rx s = Some m ->
  exists ts rest,
    m = ([("ts"%string, ts)], rest) /\ s = ts ++ rest /\ ts_ok ts = true.
Proof.
  rewrite rmatch_ts_rx. destruct (seq TS_BODY s) as [|[ts rest] l] eqn:E;
    [discriminate|].
  intros H. inversion H; subst. simpl.
  exists ts, rest. split; [reflexivity|].
  apply seq_TS_BODY_sound. rewrite E. left. reflexivity.
Qed.

Lemma data_tail_sound s m :
  In m (run data_tail s) ->
  exists b rest,
    m = ([("bytes"%string, b)], rest) /\ b <> [] /\ forallb is_digit b = true.
Proof.
  intros H.
  let p := eval cbv in data_tail in change data_tail with p in H.
  repeat (apply in_run_plain in H; destruct H as (? & ? & _ & H)).
  apply in_run_group in H. destruct H as (b & ? & m' & Hb & H & ->).
  repeat (apply in_run_plain in H; destruct H as (? & ? & _ & H)).
  apply in_run_nil in H. subst m'.
  apply in_seq_cons in Hb. destruct Hb as (b1 & ? & b2 & Hb & Hn & ->).
  apply in_seq_nil in Hn. destruct Hn as [-> ->].
  apply in_plus in Hb. destruct Hb as (_ & Hne & Hd).
  rewrite app_nil_r. eexists _, _. split; [reflexivity|]. auto.
Qed.

(** What a match of the data pattern holds: the same timestamp the anchor
    pattern finds on the line, and a non-empty run of digits. *)
Lemma data_rx_match s m :
  rmatch data_rx s = Some m ->
  exists ts b rest rest',
    m = ([("ts"%string, ts); ("bytes"%string, b)], rest')
    /\ rmatch ts_rx s = Some ([("ts"%string, ts)], rest)
    /\ ts_ok ts = true /\ b <> [] /\ forallb is_digit b = true.
Proof.
  intros H. apply hd_error_in in H. rewrite data_rx_split in H.
  apply in_run_group in H. destruct H as (ts & rest & m' & Hts & Hm & ->).
  apply data_tail_sound in Hm. destruct Hm as (b & rest' & -> & Hne & Hd).
  exists ts, b, rest, rest'. split; [reflexivity|].
  rewrite rmatch_ts_rx, (seq_TS_BODY_unique _ _ Hts). simpl.
  split; [reflexivity|]. split; [|auto].
  apply (seq_TS_BODY_sound s ts rest Hts).
Qed.

(** ** [int] on digits *)

Lemma digit_not_space c : is_digit c = true -> is_space c = false.
Proof.
  unfold is_digit, is_space. intros H.
  apply andb_true_iff in H. destruct H as [H1 H2].
  apply N.leb_le in H1. apply N.leb_le in H2.
  rewrite (proj2 (N.leb_gt c 13)) by lia.
  rewrite (proj2 (N.leb_gt c 32)) by lia.
  rewrite (proj2 (N.leb_gt 8192 c)) by lia.
  rewrite !(proj2 (N.eqb_neq c _)) by lia.
  rewrite !andb_false_r. reflexivity.
Qed.

Lemma digit_not_char c d :
  is_digit c = true -> is_digit d = false -> (c =? d)%N = false.
Proof.
  intros H1 H2. destruct (N.eqb_spec c d); [subst; congruence|reflexivity].
Qed.

Lemma digits_value : forall s acc b,
  forallb is_digit s = true -> (s <> [] \/ b = true) ->
  digits s acc b = Some (value_from acc s).
Proof.
  induction s as [|c s IH]; intros acc b F N.
  - destruct N as [N| ->]; [congruence|reflexivity].
  - simpl in F. apply andb_true_iff in F. destruct F as [Fc Fs].
    change (value_from acc (c :: s)) with (value_from (10 * acc + dig c) s).
    simpl. rewrite Fc. apply IH; auto.
Qed.

Lemma lstrip_digit c s : is_digit c = true -> lstrip (c :: s) = c :: s.
Proof.
  intros H. simpl. unfold int_space. rewrite (digit_not_space c H).
  reflexivity.
Qed.

Lemma strip_digits s : forallb is_digit s = true -> strip s = s.
Proof.
  intros F. unfold strip.
  assert (L : forall t, forallb is_digit t = true -> lstrip t = t).
  { intros [|c t] Ft; [reflexivity|]. simpl in Ft.
    apply andb_true_iff in Ft. apply lstrip_digit. tauto. }
  rewrite (L s F). rewrite L; [apply rev_involutive|].
  rewrite forallb_forall in *. intros x Hx. apply F.
  apply in_rev. assumption.
Qed.

Lemma py_int_digits s :
  s <> [] -> forallb is_digit s = true -> py_int s = Some (value s).
Proof.
  intros N F. unfold py_int. rewrite (strip_digits s F).
  destruct s as [|c s']; [congruence|].
  assert (Fc : is_digit c = true).
  { simpl in F. apply andb_true_iff in F. tauto. }
  rewrite (digit_not_char c (chr "-") Fc eq_refl).
  rewrite (digit_not_char c (chr "+") Fc eq_refl).
  apply digits_value; [assumption|]. left. discriminate.
Qed.

Lemma dig_range c : is_digit c = true -> 0 <= dig c <= 9.
Proof.
  unfold is_digit, dig. intros H. apply andb_true_iff in H.
  destruct H as [H1 H2]. apply N.leb_le in H1. apply N.leb_le in H2. lia.
Qed.

Lemma value_from_nonneg : forall s acc,
  forallb is_digit s = true -> 0 <= acc -> 0 <= value_from acc s.
Proof.
  induction s as [|c s IH]; intros acc F A; [exact A|].
  simpl in F. apply andb_true_iff in F. destruct F as [Fc Fs].
  change (0 <= value_from (10 * acc + dig c) s).
  apply IH; [assumption|]. pose proof (dig_range c Fc). lia.
Qed.

Lemma value_nonneg s : forallb is_digit s = true -> 0 <= value s.
Proof. intros F. apply value_from_nonneg; [assumption|lia]. Qed.

(** The byte count of a matched data line converts, to a natural
    number. *)
Lemma int_digits s :
  s <> [] -> forallb is_digit s = true -> int s = Ok (value s).
Proof. intros N F. unfold int. rewrite (py_int_digits s N F). reflexivity. Qed.

(** ** [strptime] on a matched timestamp *)

Lemma digit_cases c :
  is_digit c = true ->
  In c [48; 49; 50; 51; 52; 53; 54; 55; 56; 57]%N.
Proof.
  unfold is_digit. intros H. apply andb_true_iff in H.
  destruct H as [H1 H2]. apply N.leb_le in H1. apply N.leb_le in H2.
  simpl. lia.
Qed.

Ltac each_digit H :=
  apply digit_cases in H; simpl in H;
  repeat (destruct H as [H|H]; [subst|]); [..|destruct H].

Lemma run_directive_H p h1 h2 rest :
  is_digit h1 = true -> is_digit h2 = true ->
  run (directive_H :: colon :: p) (h1 :: h2 :: chr ":" :: rest) =
  if value [h1; h2] <? 24
  then map (bind_group "H" [h1; h2]) (run p rest) else [].
Proof.
  intros D1 D2. each_digit D1; each_digit D2;
    simpl; rewrite ?app_nil_r; reflexivity.
Qed.

Lemma run_directive_M p m1 m2 rest :
  is_digit m1 = true -> is_digit m2 = true ->
  run (directive_M :: colon :: p) (m1 :: m2 :: chr ":" :: rest) =
  if value [m1; m2] <? 60
  then map (bind_group "M" [m1; m2]) (run p rest) else [].
Proof.
  intros D1 D2. each_digit D1; each_digit D2;
    simpl; rewrite ?app_nil_r; reflexivity.
Qed.

(** The pattern lets the seconds go up to 61; the constructor of
    [datetime] does not. *)
Lemma run_directive_S p s1 s2 rest :
  is_digit s1 = true -> is_digit s2 = true ->
  run (directive_S :: dot :: p) (s1 :: s2 :: chr "." :: rest) =
  if value [s1; s2] <? 62
  then map (bind_group "S" [s1; s2]) (run p rest) else [].
Proof.
  intros D1 D2. each_digit D1; each_digit D2;
    simpl; rewrite ?app_nil_r; reflexivity.
Qed.

Lemma upto_hd a : forall n m rest,
  length m = n -> m <> [] -> forallb (sat a) m = true ->
  hd_error (upto n a (m ++ rest)) = Some (m, rest).
Proof.
  induction n as [|n IH]; intros m rest L N F.
  - destruct m; [congruence|discriminate].
  - destruct m as [|c m]; [congruence|]. simpl in L, F.
    apply andb_true_iff in F. destruct F as [Fc Fm].
    destruct m as [|c' m'].
    + simpl in L. inversion L; subst. simpl. rewrite Fc. reflexivity.
    + assert (E : hd_error (upto n a ((c' :: m') ++ rest))
                  = Some (c' :: m', rest)).
      { apply IH; [simpl in *; lia|discriminate|assumption]. }
      change (upto (S n) a ((c :: c' :: m') ++ rest))
        with (if sat a c
              then map (push c) (upto n a ((c' :: m') ++ rest))
                   ++ [([c], (c' :: m') ++ rest)]
              else []).
      rewrite Fc.
      destruct (upto n a ((c' :: m') ++ rest)) as [|x l]; [discriminate|].
      simpl in E. inversion E; subst. reflexivity.
Qed.

Lemma run_directive_f f :
  length f = 6%nat -> forallb is_digit f = true ->
  rmatch [directive_f] f = Some ([("f"%string, f)], []).
Proof.
  intros L F. unfold rmatch, directive_f.
  change (run [Group "f" [Upto 6 (Range (chr "0") (chr "9"))]] f)
    with (flat_map
            (fun x => map (bind_group "f" (fst x)) [([], snd x)])
            (flat_map (fun x => map (glue (fst x)) [([], snd x)])
                      (upto 6 (Range (chr "0") (chr "9")) f))).
  pose proof (upto_hd (Range (chr "0") (chr "9")) 6 f [] L) as U.
  rewrite app_nil_r in U.
  destruct (upto 6 (Range (chr "0") (chr "9")) f) as [|x l].
  - assert (N : f <> []) by (destruct f; [discriminate L|discriminate]).
    specialize (U N F). discriminate.
  - assert (N : f <> []) by (destruct f; [discriminate L|discriminate]).
    specialize (U N F). simpl in U. inversion U; subst.
    simpl. unfold bind_group. simpl. rewrite app_nil_r. reflexivity.
Qed.

Arguments value : simpl never.
Arguments new_datetime : simpl never.
Arguments is_digit : simpl never.

Lemma strptime_ts ts :
  ts_ok ts = true ->
  strptime ts =
  new_datetime (ts_hour ts) (ts_minute ts) (ts_second ts) (ts_micro ts).
Proof.
  intros H. unfold ts_ok in H.
  do 15 (destruct ts as [|? ts]; [discriminate H|]).
  destruct ts; [|discriminate H].
  repeat match goal with
         | H : _ && _ = true |- _ => apply andb_true_iff in H; destruct H
         | H : (_ =? _)%N = true |- _ => apply N.eqb_eq in H; subst
         end.
  unfold ts_hour, ts_minute, ts_second, ts_micro. simpl firstn. simpl skipn.
  unfold strptime, rmatch, TIME_RE.
  rewrite run_directive_H by assumption.
  destruct (value [c; c0] <? 24) eqn:EH.
  2:{ unfold new_datetime. rewrite EH, andb_false_r. reflexivity. }
  rewrite run_directive_M by assumption.
  destruct (value [c2; c3] <? 60) eqn:EM.
  2:{ unfold new_datetime. rewrite EM, !andb_false_r. reflexivity. }
  rewrite run_directive_S by assumption.
  destruct (value [c5; c6] <? 62) eqn:ES.
  2:{ unfold new_datetime.
      replace (value [c5; c6] <? 60) with false
        by (symmetry; apply Z.ltb_ge; apply Z.ltb_ge in ES; lia).
      rewrite !andb_false_r. reflexivity. }
  assert (F : forallb is_digit [c8; c9; c10; c11; c12; c13] = true).
  { simpl. repeat match goal with H : is_digit _ = true |- _ =>
                            rewrite H; clear H end. reflexivity. }
  pose proof (run_directive_f [c8; c9; c10; c11; c12; c13] eq_refl F) as Hf.
  unfold rmatch in Hf.
  destruct (run [directive_f] [c8; c9; c10; c11; c12; c13]) as [|x l];
    [discriminate|].
  simpl in Hf. inversion Hf; subst x. clear Hf.
  simpl.
  rewrite !int_digits; try discriminate; try assumption;
    try (simpl; repeat match goal with H : is_digit _ = true |- _ =>
                                 rewrite H end; reflexivity).
Qed.

(** ** Reading a line *)

Lemma stamp_none line : stamp line = None <-> rmatch ts_rx line = None.
Proof.
  unfold stamp. destruct (rmatch ts_rx line) as [m|] eqn:E; [|tauto].
  apply ts_rx_match in E. destruct E as (ts & rest & -> & _).
  simpl. split; discriminate.
Qed.

Lemma stamp_some line ts :
  stamp line = Some ts ->
  exists rest, rmatch ts_rx line = Some ([("ts"%string, ts)], rest)
               /\ line = ts ++ rest /\ ts_ok ts = true.
Proof.
  unfold stamp. destruct (rmatch ts_rx line) as [m|] eqn:E; [|discriminate].
  apply ts_rx_match in E. destruct E as (ts' & rest & -> & L & K).
  simpl. intros H. inversion H; subst. eauto.
Qed.

Lemma recv_none line : recv line = None <-> rmatch data_rx line = None.
Proof.
  unfold recv. destruct (rmatch data_rx line) as [m|] eqn:E; [|tauto].
  apply data_rx_match in E.
  destruct E as (ts & b & rest & rest' & -> & _ & _ & N & D).
  simpl. rewrite (py_int_digits b N D). simpl. split; discriminate.
Qed.

Lemma recv_some line ts n :
  recv line = Some (ts, n) ->
  exists b rest,
    rmatch data_rx line = Some ([("ts"%string, ts); ("bytes"%string, b)], rest)
    /\ int b = Ok n /\ 0 <= n /\ stamp line = Some ts /\ ts_ok ts = true.
Proof.
  unfold recv. destruct (rmatch data_rx line) as [m|] eqn:E; [|discriminate].
  apply data_rx_match in E.
  destruct E as (ts' & b & rest & rest' & -> & A & K & N & D).
  simpl. rewrite (py_int_digits b N D). simpl. intros H. inversion H; subst.
  exists b, rest'. split; [reflexivity|].
  split; [apply int_digits; assumption|].
  split; [apply value_nonneg; assumption|].
  split; [|assumption]. unfold stamp. rewrite A. reflexivity.
Qed.

(** A timestamp of the right shape parses exactly when its fields name a
    time of day. *)
Lemma ts_fields_nonneg ts :
  ts_ok ts = true ->
  0 <= ts_hour ts /\ 0 <= ts_minute ts /\ 0 <= ts_second ts
  /\ 0 <= ts_micro ts < 1000000.
Proof.
  intros H. unfold ts_ok in H.
  do 15 (destruct ts as [|? ts]; [discriminate H|]).
  destruct ts; [|discriminate H].
  repeat match goal with
         | H : _ && _ = true |- _ => apply andb_true_iff in H; destruct H
         | H : (_ =? _)%N = true |- _ => apply N.eqb_eq in H; subst
         end.
  cbv [ts_hour ts_minute ts_second ts_micro value value_from
       firstn skipn fold_left].
  repeat match goal with
         | H : is_digit ?c = true |- _ => apply dig_range in H
         end.
  lia.
Qed.

Lemma strptime_valid ts :
  ts_ok ts = true ->
  strptime ts = if valid_time ts then Ok (time_of ts) else Raise ValueError.
Proof.
  intros K. rewrite (strptime_ts ts K).
  pose proof (ts_fields_nonneg ts K) as (Hh & Hm & Hs & Hu1 & Hu2).
  unfold new_datetime, valid_time, time_of.
  rewrite (proj2 (Z.leb_le 0 _) Hh), (proj2 (Z.leb_le 0 _) Hm),
    (proj2 (Z.leb_le 0 _) Hs), (proj2 (Z.leb_le 0 _) Hu1),
    (proj2 (Z.ltb_lt _ _) Hu2).
  simpl. rewrite !andb_true_r.
  destruct (ts_hour ts <? 24), (ts_minute ts <? 60), (ts_second ts <? 60);
    reflexivity.
Qed.

(** ** What a log says *)

Lemma total_seconds_0 t : total_seconds (sub_datetime t t) = 0%Q.
Proof. unfold total_seconds, sub_datetime. rewrite Z.sub_diag. reflexivity. Qed.

Lemma recv_stamp line ts n : recv line = Some (ts, n) -> stamp line = Some ts.
Proof. intros H. apply recv_some in H. destruct H as (? & ? & ? & ? & ? & ? & ?). assumption. Qed.

Lemma stamp_none_recv line : stamp line = None -> recv line = None.
Proof.
  intros H. destruct (recv line) as [[ts n]|] eqn:E; [|reflexivity].
  apply recv_stamp in E. congruence.
Qed.

(** *** One iteration of plot.py *)

Lemma plot_anchor_eq st line :
  Plot.anchor st line =
  match Plot.t0 st, stamp line with
  | None, Some ts => t <- strptime ts ;; Ok (plot_anchored st t)
  | _, _ => Ok st
  end.
Proof.
  unfold Plot.anchor. destruct (Plot.t0 st); [reflexivity|].
  destruct (stamp line) as [ts|] eqn:E.
  - apply stamp_some in E. destruct E as (rest & -> & _ & _). simpl.
    destruct (strptime ts); simpl; [|reflexivity].
    unfold plot_anchored. rewrite total_seconds_0. reflexivity.
  - apply stamp_none in E. rewrite E. reflexivity.
Qed.

Lemma plot_body_eq st line :
  Plot.body st line =
  st1 <- Plot.anchor st line ;;
  match recv line with
  | None => Ok (Plot.Next st1)
  | Some (ts, n) =>
      d <- strptime ts ;;
      a <- of_option TypeError (Plot.t0 st1) ;;
      let st2 := plot_sample st1 a d n in
      if Plot.total_bytes st1 + n >? Plot.THRESHOLD
      then Ok (Plot.Break st2) else Ok (Plot.Next st2)
  end.
Proof.
  unfold Plot.body. destruct (Plot.anchor st line) as [st1|e]; [|reflexivity].
  simpl. destruct (recv line) as [[ts n]|] eqn:E.
  - apply recv_some in E. destruct E as (b & rest & -> & I & _).
    simpl. destruct (strptime ts) as [d|]; [|reflexivity]. simpl.
    unfold plot_sample.
    destruct (Plot.t0 st1) as [a|]; [|reflexivity]. simpl.
    rewrite I. reflexivity.
  - apply recv_none in E. rewrite E. reflexivity.
Qed.

Lemma events_cons l rest :
  events (l :: rest) =
  match recv l with Some e => e :: events rest | None => events rest end.
Proof. unfold events. simpl. destruct (recv l); reflexivity. Qed.

Lemma plot_after_nil st a : Plot.t0 st = Some a -> plot_after st a [] = st.
Proof.
  intros H. destruct st as [tm tt t tb]. simpl in H. subst.
  unfold plot_after, total. simpl. rewrite !app_nil_r. reflexivity.
Qed.

Lemma plot_after_cons st a ts n evs :
  Plot.t0 st = Some a ->
  plot_after (plot_sample st a (time_of ts) n) a evs
  = plot_after st a ((ts, n) :: evs).
Proof.
  intros H. unfold plot_after, plot_sample, total, elapsed. simpl.
  rewrite <- !app_assoc. reflexivity.
Qed.

(** *** The loop of plot.py, once anchored *)
Lemma plot_loop_anchored : forall log st a,
  Plot.t0 st = Some a ->
  Plot.loop st log =
  let evs := upto_crossing Plot.THRESHOLD (Plot.total_bytes st) (events log) in
  if all_valid evs then
    Ok (if crosses Plot.THRESHOLD (Plot.total_bytes st) (events log)
        then Plot.Broke else Plot.Exhausted,
        plot_after st a evs)
  else Raise ValueError.
Proof.
  induction log as [|l rest IH]; intros st a Ht.
  - simpl. rewrite (plot_after_nil st a Ht). reflexivity.
  - cbv zeta. rewrite events_cons.
    change (Plot.loop st (l :: rest))
      with (f <- Plot.body st l ;;
            match f with
            | Plot.Next st' => Plot.loop st' rest
            | Plot.Break st' => Ok (Plot.Broke, st')
            end).
    rewrite plot_body_eq, plot_anchor_eq, Ht.
    destruct (recv l) as [[ts n]|] eqn:E.
    + destruct (recv_some _ _ _ E) as (b & r & _ & _ & _ & _ & K).
      rewrite (strptime_valid ts K).
      cbn [bind of_option]. rewrite Ht. cbn [bind of_option].
      cbn [upto_crossing crosses].
      destruct (valid_time ts) eqn:V; cbn [bind].
      * destruct (Plot.total_bytes st + n >? Plot.THRESHOLD) eqn:C;
          cbn [bind].
        -- unfold all_valid. cbn [forallb fst]. rewrite V. cbn [andb].
           pose proof (plot_after_cons st a ts n [] Ht) as Q.
           rewrite plot_after_nil in Q by exact Ht.
           f_equal. f_equal. exact Q.
        -- rewrite (IH (plot_sample st a (time_of ts) n) a Ht).
           cbv zeta. cbn [plot_sample Plot.total_bytes].
           unfold all_valid. cbn [forallb fst]. rewrite V. cbn [andb].
           fold (all_valid (upto_crossing Plot.THRESHOLD
                              (Plot.total_bytes st + n) (events rest))).
           destruct (all_valid _); [|reflexivity].
           f_equal. f_equal. exact (plot_after_cons st a ts n _ Ht).
      * destruct (Plot.total_bytes st + n >? Plot.THRESHOLD);
          unfold all_valid; cbn [forallb fst]; rewrite V; reflexivity.
    + cbn [bind]. apply (IH st a Ht).
Qed.

(** *** The loop of plot.py, before the anchor *)
Lemma plot_loop_awaiting : forall log st,
  Plot.t0 st = None ->
  Plot.loop st log =
  match first_stamp log with
  | None => Ok (Plot.Exhausted, st)
  | Some ts0 =>
      if valid_time ts0
      then Plot.loop (plot_anchored st (time_of ts0)) (from_stamp log)
      else Raise ValueError
  end.
Proof.
  induction log as [|l rest IH]; intros st Ht; [reflexivity|].
  cbn [first_stamp from_stamp].
  change (Plot.loop st (l :: rest))
    with (f <- Plot.body st l ;;
          match f with
          | Plot.Next st' => Plot.loop st' rest
          | Plot.Break st' => Ok (Plot.Broke, st')
          end).
  destruct (stamp l) as [ts0|] eqn:E.
  - destruct (stamp_some _ _ E) as (r & _ & _ & K).
    change (Plot.loop (plot_anchored st (time_of ts0)) (l :: rest))
      with (f <- Plot.body (plot_anchored st (time_of ts0)) l ;;
            match f with
            | Plot.Next st' => Plot.loop st' rest
            | Plot.Break st' => Ok (Plot.Broke, st')
            end).
    rewrite !plot_body_eq, !plot_anchor_eq, Ht, E.
    rewrite (strptime_valid ts0 K).
    destruct (valid_time ts0); reflexivity.
  - rewrite plot_body_eq, plot_anchor_eq, Ht, E, (stamp_none_recv l E).
    cbn [bind]. apply IH. exact Ht.
Qed.

Lemma events_from_stamp log : events (from_stamp log) = events log.
Proof.
  induction log as [|l rest IH]; [reflexivity|].
  cbn [from_stamp]. destruct (stamp l) eqn:E; [reflexivity|].
  rewrite events_cons, (stamp_none_recv l E). exact IH.
Qed.

(** plot.py computes what the specification reads in the log. *)
Lemma plot_loop_spec log : Plot.loop Plot.init log = plot_spec log.
Proof.
  unfold plot_spec. rewrite (plot_loop_awaiting log Plot.init eq_refl).
  destruct (first_stamp log) as [ts0|]; [|reflexivity].
  destruct (valid_time ts0); [|reflexivity].
  rewrite (plot_loop_anchored (from_stamp log)
             (plot_anchored Plot.init (time_of ts0)) (time_of ts0) eq_refl).
  rewrite events_from_stamp. reflexivity.
Qed.

(** *** [parse_log] *)

Lemma parse_anchor_eq st line :
  RunTraces.anchor st line =
  match RunTraces.t0 st, stamp line with
  | None, Some ts => t <- strptime ts ;; Ok (parse_anchored st t)
  | _, _ => Ok st
  end.
Proof.
  unfold RunTraces.anchor, ANY_TS. destruct (RunTraces.t0 st); [reflexivity|].
  destruct (stamp line) as [ts|] eqn:E.
  - apply stamp_some in E. destruct E as (rest & -> & _ & _). simpl.
    destruct (strptime ts); reflexivity.
  - apply stamp_none in E. rewrite E. reflexivity.
Qed.

Lemma parse_body_eq st line :
  RunTraces.body st line =
  st1 <- RunTraces.anchor st line ;;
  match recv line with
  | None => Ok st1
  | Some (ts, n) =>
      d <- strptime ts ;;
      a <- of_option TypeError (RunTraces.t0 st1) ;;
      Ok (parse_sample st1 a d n)
  end.
Proof.
  unfold RunTraces.body, RECV_DATA.
  destruct (RunTraces.anchor st line) as [st1|e]; [|reflexivity].
  simpl. destruct (recv line) as [[ts n]|] eqn:E.
  - apply recv_some in E. destruct E as (b & rest & -> & I & _).
    simpl. destruct (strptime ts) as [d|]; [|reflexivity]. simpl.
    unfold parse_sample.
    destruct (RunTraces.t0 st1) as [a|]; [|reflexivity]. simpl.
    rewrite I. reflexivity.
  - apply recv_none in E. rewrite E. reflexivity.
Qed.

Lemma parse_after_nil st a :
  RunTraces.t0 st = Some a -> parse_after st a [] = st.
Proof.
  intros H. destruct st as [tm tt t tb]. simpl in H. subst.
  unfold parse_after, total. simpl. rewrite !app_nil_r. reflexivity.
Qed.

Lemma parse_after_cons st a ts n evs :
  RunTraces.t0 st = Some a ->
  parse_after (parse_sample st a (time_of ts) n) a evs
  = parse_after st a ((ts, n) :: evs).
Proof.
  intros H. unfold parse_after, parse_sample, total, elapsed. simpl.
  rewrite <- !app_assoc. reflexivity.
Qed.

Lemma parse_loop_anchored : forall log st a,
  RunTraces.t0 st = Some a ->
  RunTraces.loop st log =
  if all_valid (events log) then Ok (parse_after st a (events log))
  else Raise ValueError.
Proof.
  induction log as [|l rest IH]; intros st a Ht.
  - change (Ok st = Ok (parse_after st a [])).
    rewrite (parse_after_nil st a Ht). reflexivity.
  - rewrite events_cons.
    change (RunTraces.loop st (l :: rest))
      with (st' <- RunTraces.body st l ;; RunTraces.loop st' rest).
    rewrite parse_body_eq, parse_anchor_eq, Ht.
    destruct (recv l) as [[ts n]|] eqn:E.
    + destruct (recv_some _ _ _ E) as (b & r & _ & _ & _ & _ & K).
      rewrite (strptime_valid ts K).
      cbn [bind of_option]. rewrite Ht. cbn [bind of_option].
      unfold all_valid. cbn [forallb fst].
      destruct (valid_time ts) eqn:V; cbn [bind andb]; [|reflexivity].
      rewrite (IH (parse_sample st a (time_of ts) n) a Ht).
      fold (all_valid (events rest)).
      destruct (all_valid _); [|reflexivity].
      f_equal. exact (parse_after_cons st a ts n _ Ht).
    + cbn [bind]. apply (IH st a Ht).
Qed.

Lemma parse_loop_awaiting : forall log st,
  RunTraces.t0 st = None ->
  RunTraces.loop st log =
  match first_stamp log with
  | None => Ok st
  | Some ts0 =>
      if valid_time ts0
      then RunTraces.loop (parse_anchored st (time_of ts0)) (from_stamp log)
      else Raise ValueError
  end.
Proof.
  induction log as [|l rest IH]; intros st Ht; [reflexivity|].
  cbn [first_stamp from_stamp].
  change (RunTraces.loop st (l :: rest))
    with (st' <- RunTraces.body st l ;; RunTraces.loop st' rest).
  destruct (stamp l) as [ts0|] eqn:E.
  - destruct (stamp_some _ _ E) as (r & _ & _ & K).
    change (RunTraces.loop (parse_anchored st (time_of ts0)) (l :: rest))
      with (st' <- RunTraces.body (parse_anchored st (time_of ts0)) l ;;
            RunTraces.loop st' rest).
    rewrite !parse_body_eq, !parse_anchor_eq, Ht, E.
    rewrite (strptime_valid ts0 K).
    destruct (valid_time ts0); reflexivity.
  - rewrite parse_body_eq, parse_anchor_eq, Ht, E, (stamp_none_recv l E).
    cbn [bind]. apply IH. exact Ht.
Qed.

(** [parse_log] computes what [parse_spec] reads in the log. *)
Lemma parse_lines_spec log : RunTraces.parse_lines log = parse_spec log.
Proof.
  unfold RunTraces.parse_lines, parse_spec.
  rewrite (parse_loop_awaiting log RunTraces.init eq_refl).
  destruct (first_stamp log) as [ts0|]; [|reflexivity].
  destruct (valid_time ts0); [|reflexivity].
  rewrite (parse_loop_anchored (from_stamp log)
             (parse_anchored RunTraces.init (time_of ts0)) (time_of ts0)
             eq_refl).
  rewrite events_from_stamp. cbn [andb].
  destruct (all_valid (events log)); reflexivity.
Qed.

(** ** Facts about the reading of a log *)

Lemma sums_length : forall l acc, length (sums acc l) = length l.
Proof. induction l as [|n l IH]; intros acc; simpl; [|rewrite IH]; reflexivity. Qed.

Lemma events_nonneg log : Forall (fun e : event => 0 <= snd e) (events log).
Proof.
  induction log as [|l rest IH]; [constructor|].
  rewrite events_cons. destruct (recv l) as [[ts n]|] eqn:E; [|exact IH].
  constructor; [|exact IH].
  destruct (recv_some _ _ _ E) as (? & ? & ? & ? & ? & ?). assumption.
Qed.

Lemma no_stamp_no_events log : first_stamp log = None -> events log = [].
Proof.
  induction log as [|l rest IH]; [reflexivity|].
  cbn [first_stamp]. destruct (stamp l) eqn:E; [discriminate|].
  intros H. rewrite events_cons, (stamp_none_recv l E). exact (IH H).
Qed.

Lemma upto_crossing_incl bound : forall evs acc e,
  In e (upto_crossing bound acc evs) -> In e evs.
Proof.
  induction evs as [|[ts n] evs IH]; intros acc e; simpl; [tauto|].
  destruct (acc + n >? bound); simpl.
  - tauto.
  - intros [H|H]; [auto|right; exact (IH _ _ H)].
Qed.

Lemma all_valid_upto bound acc evs :
  all_valid evs = true -> all_valid (upto_crossing bound acc evs) = true.
Proof.
  unfold all_valid. rewrite !forallb_forall. intros H e He.
  apply H. exact (upto_crossing_incl bound evs acc e He).
Qed.

Lemma sums_sorted : forall l acc,
  Forall (fun n => 0 <= n) l ->
  StronglySorted Z.le (sums acc l) /\ Forall (fun x => acc <= x) (sums acc l).
Proof.
  induction l as [|n l IH]; intros acc F; simpl.
  - split; constructor.
  - inversion F as [|? ? Hn Fl]; subst.
    destruct (IH (acc + n) Fl) as [S G]. split.
    + constructor; [exact S|]. exact G.
    + constructor; [lia|]. eapply Forall_impl; [|exact G].
      simpl. intros x Hx. lia.
Qed.

Lemma Forall_snd_upto bound acc evs :
  Forall (fun e : event => 0 <= snd e) evs ->
  Forall (fun n => 0 <= n) (map snd (upto_crossing bound acc evs)).
Proof.
  intros F. apply Forall_forall. intros n Hn.
  apply in_map_iff in Hn. destruct Hn as (e & <- & He).
  rewrite Forall_forall in F. apply F.
  exact (upto_crossing_incl bound evs acc e He).
Qed.

Lemma Forall_snd_events log : Forall (fun n => 0 <= n) (map snd (events log)).
Proof.
  apply Forall_forall. intros n Hn.
  apply in_map_iff in Hn. destruct Hn as (e & <- & He).
  pose proof (events_nonneg log) as F. rewrite Forall_forall in F. auto.
Qed.

(** ** Examples *)

(** End-to-end scenario 1: the series is (0, 0), (0.5, 1024). *)
Example scenario1_plot :
  Plot.loop Plot.init log_scenario1
  = Ok (Plot.Exhausted,
        Plot.mk_state [0%Q; 1 # 2] [0; 1024] (Some (mk_datetime 10 0 0 0))
                      1024).
Proof. vm_compute. reflexivity. Qed.

Example scenario1_series :
  option_map (fun r => Plot.series (snd r)) (
    match Plot.loop Plot.init log_scenario1 with
    | Ok r => Some r
    | Raise _ => None
    end)
  = Some [(0%Q, 0); (1 # 2, 1024)].
Proof. vm_compute. reflexivity. Qed.

(** The anchor pattern takes any digits; an anchor that is not a time
    of day stops either parser. *)
Example anchor_must_parse :
  Plot.loop Plot.init [T "99:99:99.999999 == Info: Connected"]
  = Raise ValueError
  /\ RunTraces.parse_lines [T "99:99:99.999999 == Info: Connected"]
     = Raise ValueError.
Proof. split; vm_compute; reflexivity. Qed.

(** Only the first anchor counts. *)
Example later_stamps_ignored :
  RunTraces.parse_lines
    [T "10:00:00.000000 == a"; T "10:00:05.000000 == b";
     T "10:00:06.000000 <= Recv data, 7 bytes"]
  = Ok ([6%Q], [7]).
Proof. vm_compute. reflexivity. Qed.

(** The multi-run tool with a name that is not allowed. *)
Example main_disallowed :
  RunTraces.main (fun _ => 0) (fun f _ => f)
    [T "run_traces.py"; T "2K.bin"; T "3"] world0
  = (Exited (T "File '2K.bin' is not in ALLOWED_FILES (" ++ [10%N]
             ++ T "  1G.bin, 1K.bin, 1M.bin)"), world0).
Proof. vm_compute. reflexivity. Qed.

(** A second run that fails: two invocations, no third. *)
Example collect_second_fails :
  let status := fun cmd : list text =>
                  if text_eqb (nth 3 cmd []) (T "traces/1M.bin_2.log")
                  then 1 else 0 in
  let r := RunTraces.collect status (fun f _ => f) (T "1M.bin")
             (RunTraces.range 3) world0 in
  fst r = Raise CalledProcessError
  /\ RunTraces.calls (snd r)
     = [RunTraces.command (T "1M.bin") 1; RunTraces.command (T "1M.bin") 2].
Proof. split; vm_compute; reflexivity. Qed.

(** Scenario 1 through the single-trace script, from the bytes of the
    file to the chart. *)
Example scenario1_main :
  Plot.main [T "plot.py"; T "trace.log"]
    (mk_fs (fun _ => Some file_scenario1) (fun _ => false))
  = Shown [Plt.mk_line [0%Q; 1 # 2] [0; 1024] None].
Proof. vm_compute. reflexivity. Qed.

(** Scenario 2 with two runs: two series, labelled trace 1 and trace 2,
    neither with a sample for the anchor. *)
Example scenario2_main :
  fst (RunTraces.main (fun _ => 0) write_scenario1
         [T "run_traces.py"; T "1M.bin"; T "2"] world0)
  = Shown [Plt.mk_line [1 # 2] [1024] (Some (T "trace 1"));
           Plt.mk_line [1 # 2] [1024] (Some (T "trace 2"))].
Proof. vm_compute. reflexivity. Qed.

(** * The claims *)




(** C2.  The cumulative values of a parsed log are the running sums, in
    file order, of the byte counts of the data-receipt lines processed,
    and they never decrease.  In the single-trace parser the sums start
    with the 0 of the anchor sample. *)
Theorem C2_running_sums (log : list text) :
  (forall e st,
     Plot.loop Plot.init log = Ok (e, st) ->
     let counts := map snd (upto_crossing Plot.THRESHOLD 0 (events log)) in
     Plot.totals st
     = match first_stamp log with
       | Some _ => 0 :: sums 0 counts
       | None => []
       end
     /\ Forall (fun n => 0 <= n) counts
     /\ StronglySorted Z.le (Plot.totals st))
  /\ (forall r,
        RunTraces.parse_lines log = Ok r ->
        let counts := map snd (events log) in
        snd r = sums 0 counts
        /\ Forall (fun n => 0 <= n) counts
        /\ StronglySorted Z.le (snd r)).
Proof.
  split.
  - intros e st H counts.
    assert (F : Forall (fun n => 0 <= n) counts)
      by (apply Forall_snd_upto, events_nonneg).
    rewrite plot_loop_spec in H. unfold plot_spec in H.
    destruct (first_stamp log) as [ts0|].
    + destruct (valid_time ts0 && all_valid _); [|discriminate].
      inversion H; subst. clear H. cbn [plot_after plot_anchored Plot.totals
        Plot.init Plot.total_bytes app].
      fold counts. split; [reflexivity|]. split; [exact F|].
      destruct (sums_sorted counts 0 F) as [S G].
      constructor; assumption.
    + inversion H; subst. split; [reflexivity|]. split; [exact F|].
      constructor.
  - intros r H counts.
    assert (F : Forall (fun n => 0 <= n) counts)
      by (apply Forall_snd_events).
    rewrite parse_lines_spec in H. unfold parse_spec in H.
    destruct (first_stamp log) as [ts0|] eqn:Hs.
    + destruct (valid_time ts0 && all_valid _); [|discriminate].
      inversion H; subst. clear H. cbn [snd]. fold counts.
      split; [reflexivity|]. split; [exact F|].
      apply (sums_sorted counts 0 F).
    + inversion H; subst. cbn [snd]. unfold counts.
      rewrite (no_stamp_no_events log Hs). cbn.
      split; [reflexivity|]. split; constructor.
Qed.

Lemma C2_running_sums_witness :
  Plot.totals (mk_plot_crossing) = [0; 12000000; 12600000]
  /\ StronglySorted Z.le (Plot.totals mk_plot_crossing).
Proof.
  destruct (proj1 (C2_running_sums log_crossing) Plot.Broke mk_plot_crossing)
    as (E & _ & S).
  - vm_compute. reflexivity.
  - split; [exact E|exact S].
Defined.

(** ** The loops and the end of the list *)

Lemma plot_loop_app : forall pre st rest,
  Plot.loop st (pre ++ rest) =
  r <- Plot.loop st pre ;;
  match r with
  | (Plot.Exhausted, st1) => Plot.loop st1 rest
  | (Plot.Broke, st1) => Ok (Plot.Broke, st1)
  end.
Proof.
  induction pre as [|l pre IH]; intros st rest; [reflexivity|].
  cbn [app Plot.loop]. destruct (Plot.body st l) as [[st1|st1]|e];
    cbn [bind]; [apply IH|reflexivity|reflexivity].
Qed.

(** [parse_log] has no way out of its loop but the end of the file or an
    exception. *)
Lemma parse_loop_app : forall pre st rest,
  RunTraces.loop st (pre ++ rest) =
  st1 <- RunTraces.loop st pre ;; RunTraces.loop st1 rest.
Proof.
  induction pre as [|l pre IH]; intros st rest; [reflexivity|].
  cbn [app RunTraces.loop]. destruct (RunTraces.body st l) as [st1|e];
    cbn [bind]; [apply IH|reflexivity].
Qed.





Lemma total_seconds_exact td : (total_seconds td == td # 1000000)%Q.
Proof. unfold total_seconds. apply Qred_correct. Qed.

Lemma total_seconds_negative td : td < 0 -> (total_seconds td < 0)%Q.
Proof.
  intros H. rewrite total_seconds_exact. unfold Qlt. cbn [Qnum Qden]. lia.
Qed.

(** C4.  The elapsed value recorded for a data-receipt line is the
    line's time of day less the anchor's, in seconds: exactly the
    difference in microseconds over 10^6.  Nothing corrects a change of
    day: a line earlier in the day than the anchor gets a negative
    value. *)
Theorem C4_elapsed (log : list text) (ts0 : text) :
  first_stamp log = Some ts0 ->
  (forall e st,
     Plot.loop Plot.init log = Ok (e, st) ->
     Plot.t0 st = Some (time_of ts0)
     /\ Plot.times st
        = 0%Q :: map (elapsed (time_of ts0))
                     (map fst (upto_crossing Plot.THRESHOLD 0 (events log))))
  /\ (forall r,
        RunTraces.parse_lines log = Ok r ->
        fst r = map (elapsed (time_of ts0)) (map fst (events log)))
  /\ (forall ts,
        (elapsed (time_of ts0) ts
         == (micros (time_of ts) - micros (time_of ts0)) # 1000000)%Q
        /\ (micros (time_of ts) < micros (time_of ts0) ->
            (elapsed (time_of ts0) ts < 0)%Q)).
Proof.
  intros Hs. split; [|split].
  - intros e st H. rewrite plot_loop_spec in H. unfold plot_spec in H.
    rewrite Hs in H. destruct (valid_time ts0 && all_valid _); [|discriminate].
    inversion H; subst. split; reflexivity.
  - intros r H. rewrite parse_lines_spec in H. unfold parse_spec in H.
    rewrite Hs in H. destruct (valid_time ts0 && all_valid _); [|discriminate].
    inversion H; subst. reflexivity.
  - intros ts. split.
    + apply total_seconds_exact.
    + intros L. apply total_seconds_negative. unfold sub_datetime. lia.
Qed.

Lemma C4_elapsed_witness :
  RunTraces.parse_lines log_midnight = Ok ([-431999 # 5], [10])
  /\ fst ([-431999 # 5], [10])
     = map (elapsed (time_of (T "23:59:59.900000")))
           (map fst (events log_midnight))
  /\ (elapsed (time_of (T "23:59:59.900000")) (T "00:00:00.100000") < 0)%Q.
Proof.
  destruct (C4_elapsed log_midnight (T "23:59:59.900000")) as (_ & P & E).
  - vm_compute. reflexivity.
  - split; [vm_compute; reflexivity|]. split.
    + apply P. vm_compute. reflexivity.
    + apply (proj2 (E (T "00:00:00.100000"))). vm_compute. reflexivity.
Defined.

Lemma first_stamp_none log :
  first_stamp log = None <-> (forall l, In l log -> rmatch ts_rx l = None).
Proof.
  induction log as [|l rest IH]; cbn [first_stamp].
  - split; [intros _ l []|reflexivity].
  - destruct (stamp l) as [ts|] eqn:E.
    + split; [discriminate|]. intros H.
      assert (N : rmatch ts_rx l = None) by (apply H; left; reflexivity).
      apply stamp_none in N. congruence.
    + rewrite IH. split.
      * intros H x [<-|Hx]; [apply stamp_none; exact E|auto].
      * intros H x Hx. apply H. right. exact Hx.
Qed.

(** C7.  When no line of the input matches the anchor pattern, and so
    for the empty input, both parsers end with [t0] unset and an empty
    series, and [plt.step] gets two empty lists, which it draws: the
    single-trace script ends in its [plt.show()] with an empty chart. *)
Theorem C7_no_anchor (log : list text) :
  (forall l, In l log -> rmatch ts_rx l = None) ->
  (Plot.loop Plot.init log = Ok (Plot.Exhausted, Plot.init)
   /\ Plot.t0 Plot.init = None
   /\ Plot.series Plot.init = []
   /\ Plt.step (Plot.times Plot.init) (Plot.totals Plot.init) None []
      = Ok [Plt.mk_line [] [] None])
  /\ (RunTraces.loop RunTraces.init log = Ok RunTraces.init
      /\ RunTraces.t0 RunTraces.init = None
      /\ RunTraces.parse_lines log = Ok ([], [])
      /\ RunTraces.series ([], []) = []
      /\ forall lbl fig,
           Plt.step [] [] lbl fig = Ok (fig ++ [Plt.mk_line [] [] lbl]))
  /\ (forall f prog logfile bs,
        file f logfile = Some bs ->
        TextIO.lines TextIO.Strict bs = (log, None) ->
        Plot.main [prog; logfile] f = Shown [Plt.mk_line [] [] None]).
Proof.
  intros H. apply first_stamp_none in H.
  assert (P : Plot.loop Plot.init log = Ok (Plot.Exhausted, Plot.init)).
  { rewrite plot_loop_spec. unfold plot_spec. rewrite H. reflexivity. }
  split; [|split].
  - repeat split. exact P.
  - split.
    + rewrite (parse_loop_awaiting log RunTraces.init eq_refl), H. reflexivity.
    + split; [reflexivity|]. split.
      * rewrite parse_lines_spec. unfold parse_spec. rewrite H. reflexivity.
      * split; reflexivity.
  - intros f prog logfile bs Hf Hl. unfold Plot.main. rewrite Hf.
    unfold Plot.parse, Plot.parse_stream. rewrite Hl. cbn [fst snd].
    rewrite P. reflexivity.
Qed.

Lemma C7_no_anchor_witness :
  Plot.loop Plot.init [] = Ok (Plot.Exhausted, Plot.init)
  /\ RunTraces.parse_lines [] = Ok ([], [])
  /\ Plot.main [T "plot.py"; T "empty.log"]
       (mk_fs (fun _ => Some []) (fun _ => false))
     = Shown [Plt.mk_line [] [] None].
Proof.
  destruct (C7_no_anchor []) as ((P & _) & (_ & _ & R & _) & M).
  - intros l [].
  - split; [exact P|]. split; [exact R|].
    apply (M _ _ _ []); reflexivity.
Defined.

Lemma data_match_recv line m ts :
  rmatch data_rx line = Some m -> group m "ts" = Ok ts ->
  exists n, recv line = Some (ts, n).
Proof.
  intros Hm Hg. unfold recv. rewrite Hm.
  apply data_rx_match in Hm.
  destruct Hm as (ts' & b & rest & rest' & -> & _ & _ & N & D).
  cbn in Hg. inversion Hg; subst. cbn [fst lookup String.eqb Ascii.eqb
    Bool.eqb]. cbn. rewrite (py_int_digits b N D). eexists. reflexivity.
Qed.

(** C9.  A line that matches the data-receipt pattern with a time field
    that is not a time of day (the pattern takes any digits: hour 24,
    minute 60) makes [strptime] raise a [ValueError], whatever the state:
    the iteration raises, and so does the parse once it gets to the
    line; the line is not skipped.  So in both parsers. *)
Theorem C9_fail_fast (line : text) (m : mobj) (ts : text) :
  rmatch data_rx line = Some m ->
  group m "ts" = Ok ts ->
  valid_time ts = false ->
  strptime ts = Raise ValueError
  /\ (forall st, Plot.body st line = Raise ValueError)
  /\ (forall st, RunTraces.body st line = Raise ValueError)
  /\ (forall st pre st1 post,
        Plot.loop st pre = Ok (Plot.Exhausted, st1) ->
        Plot.loop st (pre ++ line :: post) = Raise ValueError)
  /\ (forall st pre st1 post,
        RunTraces.loop st pre = Ok st1 ->
        RunTraces.loop st (pre ++ line :: post) = Raise ValueError).
Proof.
  intros Hm Hg V.
  destruct (data_match_recv line m ts Hm Hg) as (n & E).
  destruct (recv_some _ _ _ E) as (b & r & _ & _ & _ & S & K).
  assert (X : strptime ts = Raise ValueError)
    by (rewrite (strptime_valid ts K), V; reflexivity).
  assert (PB : forall st, Plot.body st line = Raise ValueError).
  { intros st. rewrite plot_body_eq, plot_anchor_eq, E, S, X.
    destruct (Plot.t0 st); reflexivity. }
  assert (RB : forall st, RunTraces.body st line = Raise ValueError).
  { intros st. rewrite parse_body_eq, parse_anchor_eq, E, S, X.
    destruct (RunTraces.t0 st); reflexivity. }
  split; [exact X|]. split; [exact PB|]. split; [exact RB|]. split.
  - intros st pre st1 post H. rewrite plot_loop_app, H.
    cbn [bind Plot.loop]. rewrite PB. reflexivity.
  - intros st pre st1 post H. rewrite parse_loop_app, H.
    cbn [bind RunTraces.loop]. rewrite RB. reflexivity.
Qed.

Lemma C9_fail_fast_witness :
  strptime (T "24:00:00.000000") = Raise ValueError
  /\ Plot.loop Plot.init
       (log_scenario1 ++ [T "24:00:00.000000 <= Recv data, 5 bytes"])
     = Raise ValueError
  /\ RunTraces.loop RunTraces.init
       (log_scenario1 ++ [T "10:60:00.000000 <= Recv data, 5 bytes"])
     = Raise ValueError.
Proof.
  split; [|split].
  - apply (C9_fail_fast (T "24:00:00.000000 <= Recv data, 5 bytes")
             ([("ts"%string, T "24:00:00.000000"); ("bytes"%string, T "5")],
              [])
             (T "24:00:00.000000")); vm_compute; reflexivity.
  - eapply (C9_fail_fast (T "24:00:00.000000 <= Recv data, 5 bytes")
              ([("ts"%string, T "24:00:00.000000"); ("bytes"%string, T "5")],
               [])
              (T "24:00:00.000000")); vm_compute; reflexivity.
  - eapply (C9_fail_fast (T "10:60:00.000000 <= Recv data, 5 bytes")
              ([("ts"%string, T "10:60:00.000000"); ("bytes"%string, T "5")],
               [])
              (T "10:60:00.000000")); vm_compute; reflexivity.
Defined.

Lemma plot_body_no_type_error st line : Plot.body st line <> Raise TypeError.
Proof.
  rewrite plot_body_eq, plot_anchor_eq.
  destruct (recv line) as [[ts n]|] eqn:E.
  - destruct (recv_some _ _ _ E) as (b & r & _ & _ & _ & S & K).
    rewrite S, (strptime_valid ts K).
    destruct (Plot.t0 st) as [a|] eqn:Ht; cbn [bind];
      destruct (valid_time ts); cbn [bind plot_anchored Plot.t0 of_option];
      try rewrite Ht; cbn [bind of_option];
      try destruct (_ >? _); discriminate.
  - destruct (Plot.t0 st); [discriminate|].
    destruct (stamp line) as [ts|] eqn:S; [|discriminate].
    destruct (stamp_some _ _ S) as (r & _ & _ & K).
    rewrite (strptime_valid ts K). destruct (valid_time ts); discriminate.
Qed.

Lemma parse_body_no_type_error st line :
  RunTraces.body st line <> Raise TypeError.
Proof.
  rewrite parse_body_eq, parse_anchor_eq.
  destruct (recv line) as [[ts n]|] eqn:E.
  - destruct (recv_some _ _ _ E) as (b & r & _ & _ & _ & S & K).
    rewrite S, (strptime_valid ts K).
    destruct (RunTraces.t0 st) as [a|] eqn:Ht; cbn [bind];
      destruct (valid_time ts);
      cbn [bind parse_anchored RunTraces.t0 of_option];
      try rewrite Ht; cbn [bind of_option]; discriminate.
  - destruct (RunTraces.t0 st); [discriminate|].
    destruct (stamp line) as [ts|] eqn:S; [|discriminate].
    destruct (stamp_some _ _ S) as (r & _ & _ & K).
    rewrite (strptime_valid ts K). destruct (valid_time ts); discriminate.
Qed.

(** ** The text layer *)



Lemma feed_raises h st bs e :
  TextIO.feed h st bs = Raise e -> e = UnicodeDecodeError.
Proof.
  revert st. induction bs as [|b bs IH]; intros st; cbn [TextIO.feed];
    [discriminate|].
  destruct (TextIO.feed1 h st (Byte.to_N b)) as [r|e1] eqn:E1; cbn [bind].
  - destruct (TextIO.feed h (snd r) bs) as [r'|e2] eqn:E2; cbn [bind];
      [discriminate|].
    intros H. inversion H; subst. exact (IH _ E2).
  - intros H. inversion H; subst. clear H.
    unfold TextIO.feed1, TextIO.from_start in E1.
    destruct st as [|more lo hi bits].
    + destruct (TextIO.lead_of _); try discriminate.
      destruct h; [inversion E1; reflexivity|discriminate].
    + destruct (TextIO.between lo hi _).
      * destruct more as [|[|m]]; discriminate.
      * destruct h; [inversion E1; reflexivity|].
        destruct (TextIO.lead_of _); discriminate.
Qed.




(** The only exception of the iteration is the decoder's. *)
Lemma read_raises h : forall cs st cr buf e,
  snd (TextIO.read h cs st cr buf) = Some e -> e = UnicodeDecodeError.
Proof.
  induction cs as [|c cs IH]; intros st cr buf e; cbn [TextIO.read].
  - unfold TextIO.finish. destruct st, h; cbn [snd]; try discriminate.
    intros H. inversion H. reflexivity.
  - destruct (TextIO.feed h st c) as [[t st']|e'] eqn:F.
    + cbn [snd]. apply IH.
    + cbn [snd]. intros H. inversion H; subst. exact (feed_raises _ _ _ _ F).
Qed.










Lemma parse_lines_raises log e :
  RunTraces.parse_lines log = Raise e -> e = ValueError.
Proof.
  rewrite parse_lines_spec. unfold parse_spec.
  destruct (first_stamp log) as [ts0|]; [|discriminate].
  destruct (valid_time ts0 && all_valid _); [discriminate|].
  intros H. inversion H. reflexivity.
Qed.





(** C10.  A line the data-receipt pattern matches is matched by the
    anchor pattern too, with the same timestamp, and each iteration
    looks for the anchor before it reads the data: when the elapsed time
    is computed [t0] is set.  The [TypeError] of subtracting [None] is
    raised by no iteration and by no parse, of either parser, from any
    state and on any input. *)
Theorem C10_anchor_before_event :
  (forall line m,
     rmatch data_rx line = Some m ->
     exists m0 ts,
       rmatch ts_rx line = Some m0
       /\ group m0 "ts" = Ok ts /\ group m "ts" = Ok ts)
  /\ (forall line,
        (forall st, Plot.body st line <> Raise TypeError)
        /\ (forall st, RunTraces.body st line <> Raise TypeError))
  /\ (forall log,
        (forall st, Plot.loop st log <> Raise TypeError)
        /\ (forall st, RunTraces.loop st log <> Raise TypeError))
  /\ (forall bs f path,
        Plot.parse bs <> Raise TypeError
        /\ RunTraces.parse_log f path <> Raise TypeError).
Proof.
  assert (L : forall log,
             (forall st, Plot.loop st log <> Raise TypeError)
             /\ (forall st, RunTraces.loop st log <> Raise TypeError)).
  { induction log as [|l rest [IHp IHr]]; [split; discriminate|]. split.
    - intros st. cbn [Plot.loop].
      pose proof (plot_body_no_type_error st l) as B.
      destruct (Plot.body st l) as [[st1|st1]|e]; cbn [bind].
      + apply IHp.
      + discriminate.
      + intros X. apply B. inversion X. reflexivity.
    - intros st. cbn [RunTraces.loop].
      pose proof (parse_body_no_type_error st l) as B.
      destruct (RunTraces.body st l) as [st1|e]; cbn [bind].
      + apply IHr.
      + intros X. apply B. inversion X. reflexivity. }
  split; [|split; [|split]].
  - intros line m H. apply data_rx_match in H.
    destruct H as (ts & b & rest & rest' & -> & A & _).
    eexists _, ts. split; [exact A|]. split; reflexivity.
  - intros line. split; intros st;
      [apply plot_body_no_type_error|apply parse_body_no_type_error].
  - exact L.
  - intros bs f path. split.
    + unfold Plot.parse, Plot.parse_stream.
      pose proof (proj1 (L (fst (TextIO.lines TextIO.Strict bs))) Plot.init)
        as P.
      destruct (Plot.loop Plot.init _) as [[[|] st]|e]; cbn [bind].
      * destruct (snd (TextIO.lines TextIO.Strict bs)) as [e|] eqn:E;
          [|discriminate].
        unfold TextIO.lines in E. apply read_raises in E. subst.
        discriminate.
      * discriminate.
      * intros X. apply P. inversion X. reflexivity.
    + unfold RunTraces.parse_log.
      destruct (file f path) as [bs'|]; cbn [of_option bind];
        [|discriminate].
      unfold RunTraces.parse_stream.
      destruct (RunTraces.parse_lines _) as [r|e] eqn:E; cbn [bind].
      * destruct (snd (TextIO.lines TextIO.Ignore bs')) as [e|] eqn:X;
          [|discriminate].
        unfold TextIO.lines in X. apply read_raises in X. subst.
        discriminate.
      * apply parse_lines_raises in E. subst. discriminate.
Qed.

Lemma C10_anchor_before_event_witness :
  exists m0 ts,
    rmatch ts_rx (T "10:00:00.500000 <= Recv data, 1024 bytes") = Some m0
    /\ group m0 "ts" = Ok ts
    /\ group ([("ts"%string, T "10:00:00.500000");
               ("bytes"%string, T "1024")], []) "ts" = Ok ts.
Proof.
  apply (proj1 C10_anchor_before_event
           (T "10:00:00.500000 <= Recv data, 1024 bytes")).
  vm_compute. reflexivity.
Defined.

(** ** The orchestration *)

Lemma range_shift n :
  map (fun i => i + 1) (RunTraces.range n) = run_indices n.
Proof.
  unfold RunTraces.range, run_indices. rewrite <- seq_shift, !map_map.
  apply map_ext. intros i. lia.
Qed.

Section Orchestration.

Variable status : list text -> Z.
Variable effect : filesystem -> list text -> filesystem.

(** One run: the directory is there when the collector starts, the
    collector is started once, and its status decides. *)
Lemma run_trace_eq file_name run_idx w :
  RunTraces.run_trace status effect file_name run_idx w
  = (if fails status file_name run_idx then Raise CalledProcessError
     else Ok (RunTraces.log_path_of file_name run_idx),
     RunTraces.mk_world
       (effect (RunTraces.mkdir (RunTraces.fs w) RunTraces.TRACE_DIR)
               (RunTraces.command file_name run_idx))
       (RunTraces.calls w ++ [RunTraces.command file_name run_idx])
       (RunTraces.stdout w
        ++ [T "[run_traces] Collecting run " ++ str run_idx ++ T ": "
            ++ file_name ++ T " " ++ [8594%N] ++ T " "
            ++ RunTraces.log_path_of file_name run_idx])).
Proof.
  unfold RunTraces.run_trace, RunTraces.subprocess_run, fails.
  cbn [RunTraces.fs RunTraces.calls RunTraces.stdout].
  destruct (status _ =? 0); reflexivity.
Qed.

Lemma collect_eq file_name : forall idxs w,
  exists w',
    RunTraces.collect status effect file_name idxs w
    = (if existsb (fails status file_name) (map (fun i => i + 1) idxs)
       then Raise CalledProcessError
       else Ok (map (RunTraces.log_path_of file_name)
                    (map (fun i => i + 1) idxs)),
       w')
    /\ RunTraces.calls w'
       = RunTraces.calls w
         ++ map (RunTraces.command file_name)
                (until (fails status file_name) (map (fun i => i + 1) idxs)).
Proof.
  induction idxs as [|i rest IH]; intros w.
  - exists w. cbn. rewrite app_nil_r. split; reflexivity.
  - cbn [RunTraces.collect map existsb until]. rewrite run_trace_eq.
    destruct (fails status file_name (i + 1)) eqn:F; cbn [orb].
    + eexists. split; [reflexivity|]. reflexivity.
    + match goal with
      | |- context [RunTraces.collect _ _ _ rest ?w1] =>
          destruct (IH w1) as (w' & E & C)
      end.
      rewrite E. exists w'. split.
      * destruct (existsb _ _); reflexivity.
      * rewrite C. cbn [RunTraces.calls map]. rewrite <- app_assoc.
        reflexivity.
Qed.

End Orchestration.


(** Scenario 2 of the specification: three runs, three logs. *)
Example collect_three :
  fst (RunTraces.collect (fun _ => 0) (fun f _ => f) (T "1M.bin")
         (RunTraces.range 3) world0)
  = Ok [T "traces/1M.bin_1.log"; T "traces/1M.bin_2.log";
        T "traces/1M.bin_3.log"].
Proof. vm_compute. reflexivity. Qed.

(** ** The checks of [main] *)

Lemma run_count_spec arg n :
  RunTraces.run_count arg = Some n <-> py_int arg = Some n /\ 0 < n.
Proof.
  unfold RunTraces.run_count, int. destruct (py_int arg) as [k|]; cbn.
  - destruct (Z.gtb_spec k 0) as [G|G]; split.
    + intros E. inversion E; subst. split; [reflexivity|lia].
    + intros [E _]. exact E.
    + discriminate.
    + intros [E P]. inversion E; subst. lia.
  - split; [discriminate|]. intros [E _]. discriminate.
Qed.

Lemma allowed_spec name :
  RunTraces.mem name RunTraces.ALLOWED_FILES = true <->
  name = T "1K.bin" \/ name = T "1M.bin" \/ name = T "1G.bin".
Proof.
  unfold RunTraces.mem, RunTraces.ALLOWED_FILES. cbn [existsb].
  unfold text_eqb.
  destruct (text_eq_dec name (T "1K.bin")); [tauto|].
  destruct (text_eq_dec name (T "1M.bin")); [tauto|].
  destruct (text_eq_dec name (T "1G.bin")); [tauto|].
  cbn. split; [discriminate|]. tauto.
Qed.

(** C6.  [main] checks its arguments before anything else: the run
    count must convert to an integer above 0, the file identifier must
    be one of 1K.bin, 1M.bin and 1G.bin, and trace.sh must exist.  When
    an argument is missing or a check fails, [main] ends in [sys.exit]
    with a message, so with a status that is not 0, and the world is as
    it was: no directory made, nothing printed, the collector never
    started. *)
Theorem C6_validation (status : list text -> Z)
  (effect : filesystem -> list text -> filesystem)
  (argv : list text) (w : RunTraces.world) :
  (length argv < 3)%nat
  \/ (exists a, nth_error argv 2 = Some a
                /\ ~ (exists n, py_int a = Some n /\ 0 < n))
  \/ (exists name, nth_error argv 1 = Some name
                   /\ name <> T "1K.bin" /\ name <> T "1M.bin"
                   /\ name <> T "1G.bin")
  \/ exists_path (RunTraces.fs w) (T "trace.sh") = false ->
  exists msg,
    RunTraces.main status effect argv w = (Exited msg, w)
    /\ msg <> []
    /\ exit_status (Exited msg) <> 0
    /\ RunTraces.calls (snd (RunTraces.main status effect argv w))
       = RunTraces.calls w.
Proof.
  intros H.
  assert (G : exists msg,
             RunTraces.main status effect argv w = (Exited msg, w)
             /\ msg <> []).
  { unfold RunTraces.main.
    destruct argv as [|a0 [|a1 [|a2 rest]]];
      try (exists RunTraces.USAGE; split; [reflexivity|discriminate]).
    destruct (RunTraces.run_count a2) as [n|] eqn:Rc;
      [|exists RunTraces.BAD_COUNT; split; [reflexivity|discriminate]].
    destruct (RunTraces.mem a1 RunTraces.ALLOWED_FILES) eqn:M; cbn [negb];
      [|exists (RunTraces.BAD_FILE a1); split; [reflexivity|discriminate]].
    destruct (exists_path (RunTraces.fs w) RunTraces.TRACE_SH) eqn:X;
      cbn [negb];
      [|exists RunTraces.NO_SCRIPT; split; [reflexivity|discriminate]].
    exfalso. destruct H as [H|[H|[H|H]]].
    - simpl in H. lia.
    - destruct H as (a & Ha & Hn). cbn in Ha. inversion Ha; subst.
      apply Hn. exists n. apply run_count_spec. exact Rc.
    - destruct H as (name & Ha & N1 & N2 & N3). cbn in Ha.
      inversion Ha; subst. apply allowed_spec in M. tauto.
    - change (T "trace.sh") with RunTraces.TRACE_SH in H. congruence. }
  destruct G as (msg & E & N). exists msg.
  split; [exact E|]. split; [exact N|]. split; [discriminate|].
  rewrite E. reflexivity.
Qed.

Lemma C6_validation_witness :
  exists msg,
    RunTraces.main (fun _ => 0) (fun f _ => f)
      [T "run_traces.py"; T "2K.bin"; T "3"] world0
    = (Exited msg, world0)
    /\ msg <> [].
Proof.
  destruct (C6_validation (fun _ => 0) (fun f _ => f)
              [T "run_traces.py"; T "2K.bin"; T "3"] world0)
    as (msg & E & N & _).
  - right. right. left. exists (T "2K.bin").
    split; [reflexivity|]. repeat split; discriminate.
  - exists msg. split; assumption.
Defined.

(** * Further properties *)

(** ** The two lists of a series *)

Lemma plot_body_lengths st line f :
  length (Plot.times st) = length (Plot.totals st) ->
  Plot.body st line = Ok f ->
  match f with
  | Plot.Next st' | Plot.Break st' =>
      length (Plot.times st') = length (Plot.totals st')
  end.
Proof.
  intros L. rewrite plot_body_eq, plot_anchor_eq.
  assert (A : forall t, length (Plot.times (plot_anchored st t))
                        = length (Plot.totals (plot_anchored st t))).
  { intros t. cbn. rewrite !length_app, L. reflexivity. }
  assert (S : forall st1 a d n,
             length (Plot.times st1) = length (Plot.totals st1) ->
             length (Plot.times (plot_sample st1 a d n))
             = length (Plot.totals (plot_sample st1 a d n))).
  { intros st1 a d n L1. cbn. rewrite !length_app, L1. reflexivity. }
  assert (K : forall st1,
             length (Plot.times st1) = length (Plot.totals st1) ->
             match recv line with
             | Some (ts, n) =>
                 d <- strptime ts ;;
                 a <- of_option TypeError (Plot.t0 st1) ;;
                 (if Plot.total_bytes st1 + n >? Plot.THRESHOLD
                  then Ok (Plot.Break (plot_sample st1 a d n))
                  else Ok (Plot.Next (plot_sample st1 a d n)))
             | None => Ok (Plot.Next st1)
             end = Ok f ->
             match f with
             | Plot.Next st' | Plot.Break st' =>
                 length (Plot.times st') = length (Plot.totals st')
             end).
  { intros st1 L1. destruct (recv line) as [[ts n]|].
    - destruct (strptime ts) as [d|]; cbn [bind]; [|discriminate].
      destruct (Plot.t0 st1) as [a|]; cbn [bind of_option]; [|discriminate].
      destruct (_ >? _); intros H; inversion H; subst; apply S; exact L1.
    - intros H. inversion H; subst. exact L1. }
  destruct (Plot.t0 st) as [a|].
  - cbn [bind]. apply K. exact L.
  - destruct (stamp line) as [ts|].
    + destruct (strptime ts) as [t|]; cbn [bind]; [|discriminate].
      apply K. apply A.
    + cbn [bind]. apply K. exact L.
Qed.

Lemma parse_body_lengths st line st' :
  length (RunTraces.times st) = length (RunTraces.totals st) ->
  RunTraces.body st line = Ok st' ->
  length (RunTraces.times st') = length (RunTraces.totals st').
Proof.
  intros L. rewrite parse_body_eq, parse_anchor_eq.
  assert (K : forall st1,
             length (RunTraces.times st1) = length (RunTraces.totals st1) ->
             match recv line with
             | Some (ts, n) =>
                 d <- strptime ts ;;
                 a <- of_option TypeError (RunTraces.t0 st1) ;;
                 Ok (parse_sample st1 a d n)
             | None => Ok st1
             end = Ok st' ->
             length (RunTraces.times st') = length (RunTraces.totals st')).
  { intros st1 L1. destruct (recv line) as [[ts n]|].
    - destruct (strptime ts) as [d|]; cbn [bind]; [|discriminate].
      destruct (RunTraces.t0 st1) as [a|]; cbn [bind of_option];
        [|discriminate].
      intros H. inversion H; subst. cbn. rewrite !length_app, L1.
      reflexivity.
    - intros H. inversion H; subst. exact L1. }
  destruct (RunTraces.t0 st) as [a|].
  - cbn [bind]. apply K. exact L.
  - destruct (stamp line) as [ts|].
    + destruct (strptime ts) as [t|]; cbn [bind]; [|discriminate].
      apply K. exact L.
    + cbn [bind]. apply K. exact L.
Qed.

Lemma plot_loop_lengths : forall log st e st',
  length (Plot.times st) = length (Plot.totals st) ->
  Plot.loop st log = Ok (e, st') ->
  length (Plot.times st') = length (Plot.totals st').
Proof.
  induction log as [|l rest IH]; intros st e st' L; cbn [Plot.loop].
  - intros H. inversion H; subst. exact L.
  - destruct (Plot.body st l) as [f|] eqn:B; cbn [bind]; [|discriminate].
    pose proof (plot_body_lengths st l f L B) as L1.
    destruct f as [st1|st1].
    + apply IH. exact L1.
    + intros H. inversion H; subst. exact L1.
Qed.

Lemma parse_loop_lengths : forall log st st',
  length (RunTraces.times st) = length (RunTraces.totals st) ->
  RunTraces.loop st log = Ok st' ->
  length (RunTraces.times st') = length (RunTraces.totals st').
Proof.
  induction log as [|l rest IH]; intros st st' L; cbn [RunTraces.loop].
  - intros H. inversion H; subst. exact L.
  - destruct (RunTraces.body st l) as [st1|] eqn:B; cbn [bind];
      [|discriminate].
    apply IH. exact (parse_body_lengths st l st1 L B).
Qed.

Lemma plt_step_same_length x y lbl fig :
  length x = length y -> Plt.step x y lbl fig = Ok (fig ++ [Plt.mk_line x y lbl]).
Proof. intros L. unfold Plt.step. rewrite L, Nat.eqb_refl. reflexivity. Qed.

(** X1.  Each parser keeps its two lists, the times and the totals, of
    the same length, from any state in which they are: an iteration
    appends to both or to neither.  So a series that is parsed has a
    total for every time, and [plt.step] takes it in either script: the
    [ValueError] of lists of different lengths is never raised. *)
Theorem X1_times_totals_aligned :
  (forall st log e st',
     length (Plot.times st) = length (Plot.totals st) ->
     Plot.loop st log = Ok (e, st') ->
     length (Plot.times st') = length (Plot.totals st'))
  /\ (forall st log st',
        length (RunTraces.times st) = length (RunTraces.totals st) ->
        RunTraces.loop st log = Ok st' ->
        length (RunTraces.times st') = length (RunTraces.totals st'))
  /\ (forall bs st lbl fig,
        Plot.parse bs = Ok st ->
        Plt.step (Plot.times st) (Plot.totals st) lbl fig
        = Ok (fig ++ [Plt.mk_line (Plot.times st) (Plot.totals st) lbl]))
  /\ (forall f path r lbl fig,
        RunTraces.parse_log f path = Ok r ->
        Plt.step (fst r) (snd r) lbl fig
        = Ok (fig ++ [Plt.mk_line (fst r) (snd r) lbl])).
Proof.
  split; [|split; [|split]].
  - intros st log e st'. apply plot_loop_lengths.
  - intros st log st'. apply parse_loop_lengths.
  - intros bs st lbl fig H. apply plt_step_same_length.
    unfold Plot.parse, Plot.parse_stream in H.
    destruct (Plot.loop Plot.init _) as [[e st1]|] eqn:L; cbn [bind] in H;
      [|discriminate].
    assert (st1 = st).
    { destruct e; [destruct (snd _); [discriminate|]|]; inversion H;
        reflexivity. }
    subst. exact (plot_loop_lengths _ Plot.init e st eq_refl L).
  - intros f path r lbl fig H. apply plt_step_same_length.
    unfold RunTraces.parse_log in H.
    destruct (file f path) as [bs|]; cbn [of_option bind] in H;
      [|discriminate].
    unfold RunTraces.parse_stream, RunTraces.parse_lines in H.
    destruct (RunTraces.loop RunTraces.init _) as [st|] eqn:L;
      cbn [bind] in H; [|discriminate].
    destruct (snd _); [discriminate|]. inversion H; subst. cbn [fst snd].
    exact (parse_loop_lengths _ RunTraces.init st eq_refl L).
Qed.

Lemma X1_times_totals_aligned_witness :
  length (Plot.times mk_plot_crossing) = length (Plot.totals mk_plot_crossing)
  /\ Plt.step [1 # 2] [1024] None []
     = Ok [Plt.mk_line [1 # 2] [1024] None].
Proof.
  destruct X1_times_totals_aligned as (P & _ & _ & R). split.
  - apply (P Plot.init log_crossing Plot.Broke); vm_compute; reflexivity.
  - apply (R (mk_fs (fun _ => Some file_scenario1) (fun _ => false))
             (T "traces/1K.bin_1.log") ([1 # 2], [1024]) None []).
    vm_compute. reflexivity.
Defined.

(** ** Lines that do not count *)

Lemma events_app l1 l2 : events (l1 ++ l2) = events l1 ++ events l2.
Proof. unfold events. apply flat_map_app. Qed.

Lemma first_stamp_app_none : forall pre rest,
  (forall l, In l pre -> has_stamp l = false) ->
  first_stamp (pre ++ rest) = first_stamp rest
  /\ events pre = [].
Proof.
  induction pre as [|l pre IH]; intros rest H.
  - split; reflexivity.
  - assert (S : stamp l = None).
    { specialize (H l (or_introl eq_refl)). unfold has_stamp in H.
      destruct (stamp l); [discriminate | reflexivity]. }
    destruct (IH rest (fun x Hx => H x (or_intror Hx))) as [F E].
    split.
    + cbn [app first_stamp]. rewrite S. exact F.
    + rewrite events_cons, (stamp_none_recv _ S). exact E.
Qed.

Lemma first_stamp_filter : forall log,
  first_stamp (filter has_stamp log) = first_stamp log.
Proof.
  induction log as [|l log IH]; [reflexivity|].
  cbn [filter first_stamp]. unfold has_stamp at 1.
  destruct (stamp l) as [ts|] eqn:S.
  - cbn [first_stamp]. rewrite S. reflexivity.
  - exact IH.
Qed.

Lemma events_filter_stamp : forall log,
  events (filter has_stamp log) = events log.
Proof.
  induction log as [|l log IH]; [reflexivity|].
  cbn [filter]. unfold has_stamp at 1.
  destruct (stamp l) as [ts|] eqn:S.
  - rewrite !events_cons, IH. reflexivity.
  - rewrite events_cons, (stamp_none_recv _ S). exact IH.
Qed.

Lemma events_filter_data : forall log,
  events (filter is_data log) = events log.
Proof.
  induction log as [|l log IH]; [reflexivity|].
  cbn [filter]. unfold is_data at 1.
  destruct (recv l) as [e|] eqn:R.
  - rewrite !events_cons, R, IH. reflexivity.
  - rewrite events_cons, R. exact IH.
Qed.

Lemma plot_spec_ext log1 log2 :
  first_stamp log1 = first_stamp log2 -> events log1 = events log2 ->
  Plot.loop Plot.init log1 = Plot.loop Plot.init log2.
Proof.
  intros F E. rewrite !plot_loop_spec. unfold plot_spec.
  rewrite F, E. reflexivity.
Qed.

Lemma parse_spec_ext log1 log2 :
  first_stamp log1 = first_stamp log2 -> events log1 = events log2 ->
  RunTraces.parse_lines log1 = RunTraces.parse_lines log2.
Proof.
  intros F E. rewrite !parse_lines_spec. unfold parse_spec.
  rewrite F, E. reflexivity.
Qed.

(** X2.  What either parser makes of a log depends only on its first
    line that starts with a timestamp and on its data-receipt lines.
    Dropping every line that does not start with a timestamp changes
    nothing; nor does dropping all that comes before the anchor line
    and, after it, every line that is no data-receipt line, whether or
    not it starts with a timestamp. *)
Theorem X2_irrelevant_lines (log : list text) :
  Plot.loop Plot.init (filter has_stamp log) = Plot.loop Plot.init log
  /\ RunTraces.parse_lines (filter has_stamp log) = RunTraces.parse_lines log
  /\ (forall pre l0 rest,
        log = pre ++ l0 :: rest ->
        (forall l, In l pre -> has_stamp l = false) ->
        has_stamp l0 = true ->
        Plot.loop Plot.init log
        = Plot.loop Plot.init (l0 :: filter is_data rest)
        /\ RunTraces.parse_lines log
           = RunTraces.parse_lines (l0 :: filter is_data rest)).
Proof.
  split; [|split].
  - apply plot_spec_ext;
      [apply first_stamp_filter | apply events_filter_stamp].
  - apply parse_spec_ext;
      [apply first_stamp_filter | apply events_filter_stamp].
  - intros pre l0 rest -> Hpre H0.
    destruct (first_stamp_app_none pre (l0 :: rest) Hpre) as [F E].
    unfold has_stamp in H0.
    destruct (stamp l0) as [ts|] eqn:S; [|discriminate].
    assert (F' : first_stamp (pre ++ l0 :: rest)
                 = first_stamp (l0 :: filter is_data rest)).
    { rewrite F. cbn [first_stamp]. rewrite S. reflexivity. }
    assert (E' : events (pre ++ l0 :: rest)
                 = events (l0 :: filter is_data rest)).
    { rewrite events_app, E. cbn [app].
      rewrite !events_cons, events_filter_data. reflexivity. }
    split; [apply plot_spec_ext | apply parse_spec_ext]; assumption.
Qed.

Lemma X2_irrelevant_lines_witness :
  Plot.loop Plot.init log_noisy
  = Plot.loop Plot.init
      [T "10:00:00.000000 == Info: Connected";
       T "10:00:00.500000 <= Recv data, 1024 bytes"]
  /\ RunTraces.parse_lines log_noisy
     = RunTraces.parse_lines
         [T "10:00:00.000000 == Info: Connected";
          T "10:00:00.500000 <= Recv data, 1024 bytes"].
Proof.
  destruct (X2_irrelevant_lines log_noisy) as (_ & _ & H).
  apply (H [T "* Connected to example.org"]
           (T "10:00:00.000000 == Info: Connected")
           [T "0000: 48 54 54 50";
            T "10:00:00.250000 => Send header, 78 bytes";
            T "10:00:00.500000 <= Recv data, 1024 bytes"]).
  - reflexivity.
  - intros l [<-|[]]. vm_compute. reflexivity.
  - vm_compute. reflexivity.
Defined.

(** ** What a longer log adds *)

Lemma plot_body_extends st line f :
  Plot.body st line = Ok f ->
  match f with
  | Plot.Next st' | Plot.Break st' =>
      (exists ts bs, Plot.times st' = Plot.times st ++ ts
                     /\ Plot.totals st' = Plot.totals st ++ bs)
      /\ (forall a, Plot.t0 st = Some a -> Plot.t0 st' = Some a)
  end.
Proof.
  rewrite plot_body_eq, plot_anchor_eq.
  assert (K : forall st1,
             ((exists ts bs, Plot.times st1 = Plot.times st ++ ts
                             /\ Plot.totals st1 = Plot.totals st ++ bs)
              /\ (forall a, Plot.t0 st = Some a -> Plot.t0 st1 = Some a)) ->
             match recv line with
             | Some (ts, n) =>
                 d <- strptime ts ;;
                 a <- of_option TypeError (Plot.t0 st1) ;;
                 (if Plot.total_bytes st1 + n >? Plot.THRESHOLD
                  then Ok (Plot.Break (plot_sample st1 a d n))
                  else Ok (Plot.Next (plot_sample st1 a d n)))
             | None => Ok (Plot.Next st1)
             end = Ok f ->
             match f with
             | Plot.Next st' | Plot.Break st' =>
                 (exists ts bs, Plot.times st' = Plot.times st ++ ts
                                /\ Plot.totals st' = Plot.totals st ++ bs)
                 /\ (forall a, Plot.t0 st = Some a -> Plot.t0 st' = Some a)
             end).
  { intros st1 [(ts & bs & Ht & Hb) Ha].
    assert (S : forall a d n,
               (exists ts' bs',
                  Plot.times (plot_sample st1 a d n) = Plot.times st ++ ts'
                  /\ Plot.totals (plot_sample st1 a d n)
                     = Plot.totals st ++ bs')
               /\ (forall a0, Plot.t0 st = Some a0 ->
                              Plot.t0 (plot_sample st1 a d n) = Some a0)).
    { intros a d n. split.
      - eexists _, _. cbn. rewrite Ht, Hb, <- !app_assoc. split; reflexivity.
      - exact Ha. }
    destruct (recv line) as [[t n]|].
    - destruct (strptime t) as [d|]; cbn [bind]; [|discriminate].
      destruct (Plot.t0 st1) as [a|] eqn:A; cbn [bind of_option];
        [|discriminate].
      destruct (_ >? _); intros H; inversion H; subst; apply S.
    - intros H. inversion H; subst. split; [eauto | exact Ha]. }
  assert (R : (exists ts bs, Plot.times st = Plot.times st ++ ts
                             /\ Plot.totals st = Plot.totals st ++ bs)
              /\ (forall a, Plot.t0 st = Some a -> Plot.t0 st = Some a)).
  { split; [|auto]. exists [], []. rewrite !app_nil_r. split; reflexivity. }
  destruct (Plot.t0 st) as [a|] eqn:A.
  - cbn [bind]. apply K. split; [exact (proj1 R) | congruence].
  - destruct (stamp line) as [ts|].
    + destruct (strptime ts) as [t|]; cbn [bind]; [|discriminate].
      apply K. split; [|discriminate].
      eexists _, _. cbn. split; reflexivity.
    + cbn [bind]. apply K. split; [exact (proj1 R) | discriminate].
Qed.

Lemma parse_body_extends st line st' :
  RunTraces.body st line = Ok st' ->
  (exists ts bs, RunTraces.times st' = RunTraces.times st ++ ts
                 /\ RunTraces.totals st' = RunTraces.totals st ++ bs)
  /\ (forall a, RunTraces.t0 st = Some a -> RunTraces.t0 st' = Some a).
Proof.
  rewrite parse_body_eq, parse_anchor_eq.
  assert (K : forall st1,
             RunTraces.times st1 = RunTraces.times st ->
             RunTraces.totals st1 = RunTraces.totals st ->
             (forall a, RunTraces.t0 st = Some a ->
                        RunTraces.t0 st1 = Some a) ->
             match recv line with
             | Some (ts, n) =>
                 d <- strptime ts ;;
                 a <- of_option TypeError (RunTraces.t0 st1) ;;
                 Ok (parse_sample st1 a d n)
             | None => Ok st1
             end = Ok st' ->
             (exists ts bs, RunTraces.times st' = RunTraces.times st ++ ts
                            /\ RunTraces.totals st' = RunTraces.totals st ++ bs)
             /\ (forall a, RunTraces.t0 st = Some a ->
                           RunTraces.t0 st' = Some a)).
  { intros st1 Ht Hb Ha. destruct (recv line) as [[t n]|].
    - destruct (strptime t) as [d|]; cbn [bind]; [|discriminate].
      destruct (RunTraces.t0 st1) as [a|] eqn:A; cbn [bind of_option];
        [|discriminate].
      intros H. inversion H; subst. split.
      + eexists _, _. cbn. rewrite Ht, Hb. split; reflexivity.
      + intros a0 E. cbn. rewrite A. exact (Ha a0 E).
    - intros H. inversion H; subst. split; [|exact Ha].
      exists [], []. rewrite !app_nil_r. split; assumption. }
  destruct (RunTraces.t0 st) as [a|] eqn:A.
  - cbn [bind]. apply K; congruence.
  - destruct (stamp line) as [ts|].
    + destruct (strptime ts) as [t|]; cbn [bind]; [|discriminate].
      apply K; [reflexivity | reflexivity | discriminate].
    + cbn [bind]. apply K; congruence.
Qed.

Lemma plot_loop_extends : forall log st e st',
  Plot.loop st log = Ok (e, st') ->
  (exists ts bs, Plot.times st' = Plot.times st ++ ts
                 /\ Plot.totals st' = Plot.totals st ++ bs)
  /\ (forall a, Plot.t0 st = Some a -> Plot.t0 st' = Some a).
Proof.
  induction log as [|l rest IH]; intros st e st'; cbn [Plot.loop].
  - intros H. inversion H; subst. split; [|auto].
    exists [], []. rewrite !app_nil_r. split; reflexivity.
  - destruct (Plot.body st l) as [f|] eqn:B; cbn [bind]; [|discriminate].
    pose proof (plot_body_extends st l f B) as E.
    destruct f as [st1|st1].
    + intros H. destruct (IH _ _ _ H) as [(ts & bs & Ht & Hb) Ha].
      destruct E as [(ts1 & bs1 & Ht1 & Hb1) Ha1]. split.
      * exists (ts1 ++ ts), (bs1 ++ bs).
        rewrite Ht, Hb, Ht1, Hb1, <- !app_assoc. split; reflexivity.
      * intros a A. apply Ha, Ha1, A.
    + intros H. inversion H; subst. exact E.
Qed.

Lemma parse_loop_extends : forall log st st',
  RunTraces.loop st log = Ok st' ->
  (exists ts bs, RunTraces.times st' = RunTraces.times st ++ ts
                 /\ RunTraces.totals st' = RunTraces.totals st ++ bs)
  /\ (forall a, RunTraces.t0 st = Some a -> RunTraces.t0 st' = Some a).
Proof.
  induction log as [|l rest IH]; intros st st'; cbn [RunTraces.loop].
  - intros H. inversion H; subst. split; [|auto].
    exists [], []. rewrite !app_nil_r. split; reflexivity.
  - destruct (RunTraces.body st l) as [st1|] eqn:B; cbn [bind];
      [|discriminate].
    destruct (parse_body_extends st l st1 B) as [(ts1 & bs1 & Ht1 & Hb1) Ha1].
    intros H. destruct (IH _ _ H) as [(ts & bs & Ht & Hb) Ha]. split.
    + exists (ts1 ++ ts), (bs1 ++ bs).
      rewrite Ht, Hb, Ht1, Hb1, <- !app_assoc. split; reflexivity.
    + intros a A. apply Ha, Ha1, A.
Qed.

(** X3.  Reading more of a log never revises what was read: when a log
    and a longer log that starts with it both parse, the samples of the
    shorter are the first samples of the longer, and the anchor, once
    set, stays: later lines that start with a timestamp do not move
    it.  For plot.py this holds whatever made the shorter parse end,
    and if it ended on the threshold the longer log gives the very same
    series. *)
Theorem X3_prefix_stable (log more : list text) :
  (forall e st e' st',
     Plot.loop Plot.init log = Ok (e, st) ->
     Plot.loop Plot.init (log ++ more) = Ok (e', st') ->
     (exists ts bs, Plot.times st' = Plot.times st ++ ts
                    /\ Plot.totals st' = Plot.totals st ++ bs)
     /\ (forall a, Plot.t0 st = Some a -> Plot.t0 st' = Some a)
     /\ (e = Plot.Broke -> st' = st))
  /\ (forall r r',
        RunTraces.parse_lines log = Ok r ->
        RunTraces.parse_lines (log ++ more) = Ok r' ->
        exists ts bs, fst r' = fst r ++ ts /\ snd r' = snd r ++ bs).
Proof.
  split.
  - intros e st e' st' H. rewrite plot_loop_app, H. cbn [bind].
    destruct e.
    + intros H'. destruct (plot_loop_extends _ _ _ _ H') as [E A].
      split; [exact E | split; [exact A | discriminate]].
    + intros H'. inversion H'; subst. split; [|split; auto].
      exists [], []. rewrite !app_nil_r. split; reflexivity.
  - intros r r'. unfold RunTraces.parse_lines. rewrite parse_loop_app.
    destruct (RunTraces.loop RunTraces.init log) as [st|]; cbn [bind];
      [|discriminate].
    intros H. inversion H; subst. clear H.
    destruct (RunTraces.loop st more) as [st'|] eqn:L; cbn [bind];
      [|discriminate].
    intros H. inversion H; subst. cbn [fst snd].
    exact (proj1 (parse_loop_extends _ _ _ L)).
Qed.

Lemma X3_prefix_stable_witness :
  exists ts bs,
    Plot.times mk_plot_crossing = Plot.times mk_plot_before ++ ts
    /\ Plot.totals mk_plot_crossing = Plot.totals mk_plot_before ++ bs.
Proof.
  destruct (X3_prefix_stable log_before_crossing (skipn 2 log_crossing))
    as [P _].
  apply (P Plot.Exhausted mk_plot_before Plot.Broke mk_plot_crossing);
    vm_compute; reflexivity.
Defined.

(** ** The two parsers on the same log *)

Lemma upto_crossing_firstn bound : forall evs acc,
  upto_crossing bound acc evs
  = firstn (length (upto_crossing bound acc evs)) evs.
Proof.
  induction evs as [|[ts n] rest IH]; intros acc; [reflexivity|].
  cbn [upto_crossing]. destruct (acc + n >? bound).
  - reflexivity.
  - cbn [length firstn]. rewrite <- IH. reflexivity.
Qed.

Lemma upto_crossing_all bound : forall evs acc,
  crosses bound acc evs = false -> upto_crossing bound acc evs = evs.
Proof.
  induction evs as [|[ts n] rest IH]; intros acc; [reflexivity|].
  cbn [upto_crossing crosses]. destruct (acc + n >? bound); [discriminate|].
  intros H. rewrite (IH _ H). reflexivity.
Qed.

Lemma sums_firstn : forall l k acc,
  sums acc (firstn k l) = firstn k (sums acc l).
Proof.
  induction l as [|n l IH]; intros [|k] acc; try reflexivity.
  cbn [firstn sums]. rewrite IH. reflexivity.
Qed.

Lemma parse_lines_ok log r :
  RunTraces.parse_lines log = Ok r ->
  match first_stamp log with
  | None => r = ([], [])
  | Some ts0 =>
      valid_time ts0 = true /\ all_valid (events log) = true
      /\ r = (map (elapsed (time_of ts0)) (map fst (events log)),
              sums 0 (map snd (events log)))
  end.
Proof.
  rewrite parse_lines_spec. unfold parse_spec.
  destruct (first_stamp log) as [ts0|].
  - destruct (valid_time ts0); [|discriminate].
    destruct (all_valid (events log)); [|discriminate].
    cbn [andb]. intros H. inversion H. auto.
  - intros H. inversion H. reflexivity.
Qed.

(** X4.  plot.py and [parse_log] on the same lines.  Whenever
    [parse_log]'s loop gets through a log, so does plot.py's; if the
    log has no line that starts with a timestamp both series are empty;
    otherwise plot.py's series is the sample (0, 0) of the anchor
    followed by the first samples of [parse_log]'s series, and by all
    of them if plot.py has read the log to its end.  So an exception of
    plot.py's loop is one of [parse_log]'s too. *)
Theorem X4_plot_and_parse_log (log : list text) :
  (forall r,
     RunTraces.parse_lines log = Ok r ->
     exists e st,
       Plot.loop Plot.init log = Ok (e, st)
       /\ match first_stamp log with
          | None => Plot.series st = [] /\ RunTraces.series r = []
          | Some _ =>
              Plot.series st
              = (0%Q, 0) :: firstn (length (Plot.series st) - 1)
                                   (RunTraces.series r)
              /\ (e = Plot.Exhausted ->
                  Plot.series st = (0%Q, 0) :: RunTraces.series r)
          end)
  /\ (forall x, Plot.loop Plot.init log = Raise x ->
                RunTraces.parse_lines log = Raise x).
Proof.
  assert (P : forall r,
     RunTraces.parse_lines log = Ok r ->
     exists e st,
       Plot.loop Plot.init log = Ok (e, st)
       /\ match first_stamp log with
          | None => Plot.series st = [] /\ RunTraces.series r = []
          | Some _ =>
              Plot.series st
              = (0%Q, 0) :: firstn (length (Plot.series st) - 1)
                                   (RunTraces.series r)
              /\ (e = Plot.Exhausted ->
                  Plot.series st = (0%Q, 0) :: RunTraces.series r)
          end).
  { intros r H. apply parse_lines_ok in H.
    rewrite plot_loop_spec. unfold plot_spec.
    destruct (first_stamp log) as [ts0|].
    - destruct H as (V & A & ->).
      rewrite V, (all_valid_upto _ _ _ A). cbn [andb].
      eexists _, _. split; [reflexivity|].
      set (evs := events log) in *.
      set (up := upto_crossing Plot.THRESHOLD 0 evs).
      assert (S : forall l : list event,
                 Plot.series
                   (plot_after (plot_anchored Plot.init (time_of ts0))
                               (time_of ts0) l)
                 = (0%Q, 0)
                   :: combine (map (elapsed (time_of ts0)) (map fst l))
                              (sums 0 (map snd l))).
      { intros l. reflexivity. }
      rewrite S. unfold RunTraces.series. cbn [fst snd].
      split.
      + f_equal. cbn [length]. rewrite Nat.sub_succ, Nat.sub_0_r.
        rewrite length_combine, !length_map, sums_length, length_map,
          Nat.min_id.
        rewrite combine_firstn. unfold up at 1 2.
        rewrite (upto_crossing_firstn Plot.THRESHOLD evs 0). fold up.
        rewrite <- !firstn_map, sums_firstn. reflexivity.
      + destruct (crosses Plot.THRESHOLD 0 evs) eqn:C; [discriminate|].
        intros _. unfold up. rewrite (upto_crossing_all _ _ _ C).
        reflexivity.
    - subst r. eexists _, _. split; [reflexivity|]. split; reflexivity. }
  split; [exact P|].
  intros x H.
  destruct (RunTraces.parse_lines log) as [r|y] eqn:R.
  - destruct (P r eq_refl) as (e & st & L & _). congruence.
  - rewrite (parse_lines_raises _ _ R). f_equal.
    rewrite plot_loop_spec in H. unfold plot_spec in H.
    destruct (first_stamp log); [|discriminate].
    destruct (_ && _); [discriminate|]. inversion H. reflexivity.
Qed.

Lemma X4_plot_and_parse_log_witness :
  exists e st,
    Plot.loop Plot.init log_crossing = Ok (e, st)
    /\ Plot.series st
       = (0%Q, 0) :: firstn (length (Plot.series st) - 1)
                            (RunTraces.series ([1%Q; 9 # 4; 3%Q],
                                               [12000000; 12600000; 12600005])).
Proof.
  destruct (X4_plot_and_parse_log log_crossing) as [P _].
  destruct (P ([1%Q; 9 # 4; 3%Q], [12000000; 12600000; 12600005]))
    as (e & st & L & S).
  - vm_compute. reflexivity.
  - exists e, st. split; [exact L | exact (proj1 S)].
Defined.

(** ** The threshold of plot.py *)

Lemma sums_cap bound : forall evs acc,
  acc <= bound ->
  let l := acc :: sums acc (map snd (upto_crossing bound acc evs)) in
  Forall (fun x => x <= bound) (removelast l)
  /\ (crosses bound acc evs = true <-> last l 0 > bound)
  /\ total acc (upto_crossing bound acc evs) = last l 0.
Proof.
  induction evs as [|[ts n] rest IH]; intros acc Hacc.
  - cbn. split; [constructor | split; [|reflexivity]].
    split; [discriminate | lia].
  - cbn [upto_crossing crosses]. destruct (acc + n >? bound) eqn:C.
    + cbn. split; [repeat constructor; exact Hacc|].
      split; [|reflexivity]. split; [lia | reflexivity].
    + assert (Hn : acc + n <= bound) by lia.
      destruct (IH (acc + n) Hn) as (F & X & Tt).
      cbn [map snd sums]. cbv zeta.
      change (removelast (acc :: acc + n ::
                sums (acc + n) (map snd (upto_crossing bound (acc + n) rest))))
        with (acc :: removelast (acc + n ::
                sums (acc + n) (map snd (upto_crossing bound (acc + n) rest)))).
      change (last (acc :: acc + n ::
                sums (acc + n) (map snd (upto_crossing bound (acc + n) rest))) 0)
        with (last (acc + n ::
                sums (acc + n) (map snd (upto_crossing bound (acc + n) rest))) 0).
      split; [constructor; [exact Hacc | exact F]|].
      split; [exact X | exact Tt].
Qed.

(** X5.  The threshold of plot.py, on any log it gets through: every
    total of the series but the last is at most 12 MiB; the loop has
    stopped early exactly if the last total is above 12 MiB; and the
    last total is the number of bytes counted.  So at most one sample
    lies above the threshold, the last. *)
Theorem X5_threshold (log : list text) (e : Plot.ending) (st : Plot.state) :
  Plot.loop Plot.init log = Ok (e, st) ->
  Forall (fun x => x <= 12 * 1024 * 1024) (removelast (Plot.totals st))
  /\ (e = Plot.Broke <-> last (Plot.totals st) 0 > 12 * 1024 * 1024)
  /\ last (Plot.totals st) 0 = Plot.total_bytes st.
Proof.
  rewrite plot_loop_spec. unfold plot_spec.
  destruct (first_stamp log) as [ts0|].
  - destruct (_ && _); [|discriminate]. intros H. inversion H; subst. clear H.
    assert (B : 0 <= Plot.THRESHOLD) by (unfold Plot.THRESHOLD; lia).
    destruct (sums_cap Plot.THRESHOLD (events log) 0 B) as (F & X & Tt).
    cbv zeta in F, X, Tt.
    change (Plot.totals (plot_after (plot_anchored Plot.init (time_of ts0))
                           (time_of ts0)
                           (upto_crossing Plot.THRESHOLD 0 (events log))))
      with (0 :: sums 0 (map snd (upto_crossing Plot.THRESHOLD 0 (events log)))).
    change (Plot.total_bytes
              (plot_after (plot_anchored Plot.init (time_of ts0))
                 (time_of ts0)
                 (upto_crossing Plot.THRESHOLD 0 (events log))))
      with (total 0 (upto_crossing Plot.THRESHOLD 0 (events log))).
    change (12 * 1024 * 1024) with Plot.THRESHOLD.
    split; [exact F|]. split; [|symmetry; exact Tt].
    rewrite <- X. destruct (crosses _ _ _); split; congruence.
  - intros H. inversion H; subst. cbn.
    split; [constructor|]. split; [|reflexivity].
    split; [discriminate | lia].
Qed.

Lemma X5_threshold_witness :
  Forall (fun x => x <= 12 * 1024 * 1024)
         (removelast (Plot.totals mk_plot_crossing))
  /\ (Plot.Broke = Plot.Broke <->
      last (Plot.totals mk_plot_crossing) 0 > 12 * 1024 * 1024)
  /\ last (Plot.totals mk_plot_crossing) 0 = Plot.total_bytes mk_plot_crossing.
Proof.
  apply (X5_threshold log_crossing Plot.Broke mk_plot_crossing).
  vm_compute. reflexivity.
Defined.

(** ** When a parser raises *)


Lemma first_stamp_split : forall log ts,
  first_stamp log = Some ts ->
  exists pre l post,
    log = pre ++ l :: post /\ first_stamp pre = None /\ stamp l = Some ts.
Proof.
  induction log as [|l log IH]; intros ts; cbn [first_stamp]; [discriminate|].
  destruct (stamp l) as [t|] eqn:S.
  - intros H. inversion H; subst. exists [], l, log. auto.
  - intros H. destruct (IH _ H) as (pre & l' & post & -> & F & S').
    exists (l :: pre), l', post. split; [reflexivity|]. split; [|exact S'].
    cbn [first_stamp]. rewrite S. exact F.
Qed.











(** ** The lines the patterns match *)



























(** ** The log file of a run *)

Lemma T_inj : forall s1 s2, T s1 = T s2 -> s1 = s2.
Proof.
  unfold T. induction s1 as [|a s1 IH]; intros [|b s2];
    cbn [list_ascii_of_string map]; intros H; try discriminate; [reflexivity|].
  inversion H as [[A B]]. f_equal.
  - rewrite <- (ascii_N_embedding a), <- (ascii_N_embedding b), A. reflexivity.
  - apply IH, B.
Qed.

Lemma to_int_nonnil z :
  Z.to_int z <> Decimal.Pos Decimal.Nil
  /\ Z.to_int z <> Decimal.Neg Decimal.Nil.
Proof.
  destruct z as [|p|p]; cbn [Z.to_int]; split; try discriminate;
    intros H; inversion H as [E]; exact (Unsigned.to_uint_nonnil p E).
Qed.

Lemma str_inj i1 i2 : str i1 = str i2 -> i1 = i2.
Proof.
  unfold str. intros H. apply T_inj in H.
  apply DecimalZ.to_int_inj.
  destruct (to_int_nonnil i1) as [A1 B1].
  destruct (to_int_nonnil i2) as [A2 B2].
  pose proof (NilZero.isi _ A1 B1) as E1.
  pose proof (NilZero.isi _ A2 B2) as E2.
  rewrite H in E1. congruence.
Qed.

Lemma string_of_uint_digits d :
  forallb is_digit (T (NilEmpty.string_of_uint d)) = true.
Proof. induction d; cbn; try exact IHd; reflexivity. Qed.

Lemma str_chars z : forallb sign_or_digit (str z) = true.
Proof.
  assert (U : forall d,
             forallb sign_or_digit (T (NilZero.string_of_uint d)) = true).
  { intros d.
    assert (forallb sign_or_digit (T (NilEmpty.string_of_uint d)) = true).
    { rewrite forallb_forall. intros c I.
      pose proof (string_of_uint_digits d) as F. rewrite forallb_forall in F.
      unfold sign_or_digit. rewrite (F c I). apply orb_true_r. }
    destruct d; exact H. }
  unfold str. destruct (Z.to_int z) as [d|d]; cbn [NilZero.string_of_int].
  - apply U.
  - change (T (String "-" (NilZero.string_of_uint d)))
      with (chr "-" :: T (NilZero.string_of_uint d)).
    cbn [forallb]. rewrite U. reflexivity.
Qed.

Lemma last_split (c : char) : forall a1 a2 s1 s2,
  ~ In c s1 -> ~ In c s2 ->
  a1 ++ c :: s1 = a2 ++ c :: s2 -> a1 = a2 /\ s1 = s2.
Proof.
  induction a1 as [|x a1 IH]; intros [|y a2] s1 s2 N1 N2 E; cbn [app] in E.
  - inversion E. auto.
  - inversion E; subst. exfalso. apply N1, in_or_app. right. left. reflexivity.
  - inversion E; subst. exfalso. apply N2, in_or_app. right. left. reflexivity.
  - inversion E; subst. destruct (IH a2 s1 s2 N1 N2 H1) as [-> ->]. auto.
Qed.

Lemma no_underscore z : ~ In (chr "_") (str z ++ T ".log").
Proof.
  intros I. apply in_app_or in I. destruct I as [I|I].
  - pose proof (str_chars z) as F. rewrite forallb_forall in F.
    specialize (F _ I). discriminate F.
  - cbv in I. intuition discriminate.
Qed.

Lemma log_path_of_inj f1 i1 f2 i2 :
  RunTraces.log_path_of f1 i1 = RunTraces.log_path_of f2 i2 ->
  f1 = f2 /\ i1 = i2.
Proof.
  unfold RunTraces.log_path_of, RunTraces.joinpath. intros H.
  apply app_inv_head in H. apply app_inv_head in H.
  change (T "_") with [chr "_"] in H. cbn [app] in H.
  apply last_split in H; [|apply no_underscore|apply no_underscore].
  destruct H as [-> H]. apply app_inv_tail in H.
  split; [reflexivity | apply str_inj, H].
Qed.

Lemma NoDup_map_inj {A B} (f : A -> B) (l : list A) :
  (forall x y, f x = f y -> x = y) -> NoDup l -> NoDup (map f l).
Proof.
  intros I N. induction N as [|x l Hx N IH]; cbn [map]; constructor.
  - intros H. apply in_map_iff in H. destruct H as (y & E & Hy).
    apply I in E. subst y. exact (Hx Hy).
  - exact IH.
Qed.

Lemma run_indices_NoDup n : NoDup (run_indices n).
Proof.
  unfold run_indices. apply NoDup_map_inj; [|apply seq_NoDup].
  intros x y. apply Nat2Z.inj.
Qed.

(** X9.  A run and its log file.  For names without a slash, as the
    allowed names are, the path [traces/{file_name}_{run_idx}.log]
    tells the name and the index: two runs have the same log file only
    if they are the same run.  So the log paths [main] collects for
    [n_runs] runs are [n_runs] different paths, and no run writes over
    the log of another. *)
Theorem X9_log_paths :
  (forall f1 i1 f2 i2,
     ~ In (chr "/") f1 -> ~ In (chr "/") f2 ->
     RunTraces.log_path_of f1 i1 = RunTraces.log_path_of f2 i2 ->
     f1 = f2 /\ i1 = i2)
  /\ (forall status effect f n w logs,
        ~ In (chr "/") f ->
        fst (RunTraces.collect status effect f (RunTraces.range n) w)
        = Ok logs ->
        NoDup logs /\ length logs = Z.to_nat n).
Proof.
  split.
  - intros f1 i1 f2 i2 _ _. apply log_path_of_inj.
  - intros status effect f n w logs _ H.
    destruct (collect_eq status effect f (RunTraces.range n) w) as (w' & E & _).
    rewrite E, range_shift in H. cbn [fst] in H.
    destruct (existsb _ _); [discriminate|]. inversion H; subst. split.
    + apply NoDup_map_inj; [|apply run_indices_NoDup].
      intros x y I. exact (proj2 (log_path_of_inj _ _ _ _ I)).
    + unfold run_indices. rewrite !length_map, length_seq. reflexivity.
Qed.

Lemma X9_log_paths_witness :
  NoDup [T "traces/1M.bin_1.log"; T "traces/1M.bin_2.log";
         T "traces/1M.bin_3.log"]
  /\ length [T "traces/1M.bin_1.log"; T "traces/1M.bin_2.log";
             T "traces/1M.bin_3.log"] = Z.to_nat 3.
Proof.
  destruct X9_log_paths as [_ P].
  apply (P (fun _ => 0) (fun f _ => f) (T "1M.bin") 3 world0).
  - cbv. intuition discriminate.
  - vm_compute. reflexivity.
Defined.

(** ** The overlay and the outcomes of the scripts *)

Lemma parse_log_aligned f path r :
  RunTraces.parse_log f path = Ok r -> length (fst r) = length (snd r).
Proof.
  unfold RunTraces.parse_log.
  destruct (file f path) as [bs|]; cbn [of_option bind]; [|discriminate].
  unfold RunTraces.parse_stream, RunTraces.parse_lines.
  destruct (RunTraces.loop RunTraces.init _) as [st|] eqn:L;
    cbn [bind]; [|discriminate].
  destruct (snd _); [discriminate|]. intros H. inversion H; subst.
  cbn [fst snd]. exact (parse_loop_lengths _ RunTraces.init st eq_refl L).
Qed.


Lemma overlaid_cons idx r rs :
  overlaid idx (r :: rs) = trace_line idx r :: overlaid (idx + 1) rs.
Proof.
  unfold overlaid. cbn [length List.seq combine map fst snd].
  f_equal; [f_equal; lia|].
  rewrite <- seq_shift.
  generalize (List.seq 0 (length rs)). intros l. revert rs.
  induction l as [|k l IH]; intros [|r' rs]; try reflexivity.
  cbn [map combine fst snd]. f_equal; [f_equal; lia | apply IH].
Qed.

Lemma overlay_cons f log rest idx fig :
  RunTraces.overlay f (log :: rest) idx fig =
  match RunTraces.parse_log f log with
  | Ok r => RunTraces.overlay f rest (idx + 1) (fig ++ [trace_line idx r])
  | Raise e => Raise e
  end.
Proof.
  cbn [RunTraces.overlay].
  destruct (RunTraces.parse_log f log) as [r|e] eqn:P; cbn [bind];
    [|reflexivity].
  rewrite (plt_step_same_length _ _ _ _ (parse_log_aligned _ _ _ P)).
  reflexivity.
Qed.

Lemma overlay_ok f : forall logs idx fig fig',
  RunTraces.overlay f logs idx fig = Ok fig' <->
  exists rs,
    Forall2 (fun log r => RunTraces.parse_log f log = Ok r) logs rs
    /\ fig' = fig ++ overlaid idx rs.
Proof.
  induction logs as [|log rest IH]; intros idx fig fig'.
  - cbn [RunTraces.overlay]. split.
    + intros H. inversion H; subst. exists []. split; [constructor|].
      unfold overlaid. cbn. rewrite app_nil_r. reflexivity.
    + intros (rs & F & ->). inversion F; subst. unfold overlaid. cbn.
      rewrite app_nil_r. reflexivity.
  - rewrite overlay_cons. split.
    + destruct (RunTraces.parse_log f log) as [r|e] eqn:P; [|discriminate].
      intros H. apply IH in H. destruct H as (rs & F & ->).
      exists (r :: rs). split; [constructor; assumption|].
      rewrite overlaid_cons, <- app_assoc. reflexivity.
    + intros (rs & F & ->). inversion F as [|? r ? rs' P F']; subst.
      rewrite P. apply IH. exists rs'. split; [exact F'|].
      rewrite overlaid_cons, <- app_assoc. reflexivity.
Qed.


Lemma until_none {A} (p : A -> bool) : forall l,
  existsb p l = false -> until p l = l.
Proof.
  induction l as [|x l IH]; [reflexivity|]. cbn [existsb until].
  destruct (p x); [discriminate|]. cbn [orb]. intros H. rewrite (IH H).
  reflexivity.
Qed.

Lemma main_valid status effect prog name n rest w k :
  RunTraces.run_count n = Some k ->
  RunTraces.mem name RunTraces.ALLOWED_FILES = true ->
  exists_path (RunTraces.fs w) RunTraces.TRACE_SH = true ->
  exists w1,
    RunTraces.calls w1
    = RunTraces.calls w
      ++ map (RunTraces.command name)
             (until (fails status name) (run_indices k))
    /\ RunTraces.main status effect (prog :: name :: n :: rest) w
       = if existsb (fails status name) (run_indices k)
         then (Uncaught CalledProcessError, w1)
         else
           match RunTraces.overlay (RunTraces.fs w1)
                   (map (RunTraces.log_path_of name) (run_indices k)) 1 []
           with
           | Raise e => (Uncaught e, w1)
           | Ok fig =>
               match rest with
               | p :: _ =>
                   (Saved p fig,
                    RunTraces.mk_world (RunTraces.fs w1) (RunTraces.calls w1)
                      (RunTraces.stdout w1
                       ++ [T "[run_traces] Plot written to " ++ p]))
               | [] => (Shown fig, w1)
               end
           end.
Proof.
  intros Rc M X. unfold RunTraces.main. rewrite Rc, M, X. cbn [negb].
  destruct (collect_eq status effect name (RunTraces.range k) w)
    as (w1 & E & C).
  rewrite range_shift in E, C. rewrite E. exists w1. split; [exact C|].
  destruct (existsb _ _); [reflexivity|].
  destruct (RunTraces.overlay _ _ _ _); [|reflexivity].
  destruct rest; reflexivity.
Qed.

Lemma main_checks argv w :
  usage_error argv w
  \/ exists prog name n rest k,
       argv = prog :: name :: n :: rest
       /\ RunTraces.run_count n = Some k
       /\ RunTraces.mem name RunTraces.ALLOWED_FILES = true
       /\ exists_path (RunTraces.fs w) RunTraces.TRACE_SH = true.
Proof.
  destruct argv as [|a0 [|a1 [|a2 rest]]];
    try (left; left; cbn; lia).
  destruct (RunTraces.run_count a2) as [k|] eqn:Rc.
  - destruct (RunTraces.mem a1 RunTraces.ALLOWED_FILES) eqn:M.
    + destruct (exists_path (RunTraces.fs w) RunTraces.TRACE_SH) eqn:X.
      * right. exists a0, a1, a2, rest, k. auto.
      * left. right. right. right. exact X.
    + left. right. right. left. exists a1. split; [reflexivity|].
      assert (N : ~ (a1 = T "1K.bin" \/ a1 = T "1M.bin" \/ a1 = T "1G.bin")).
      { intros H. apply allowed_spec in H. congruence. }
      tauto.
  - left. right. left. exists a2. split; [reflexivity|].
    intros (n & H). apply run_count_spec in H. congruence.
Qed.

Lemma usage_error_exit status effect argv w :
  usage_error argv w ->
  exists msg, RunTraces.main status effect argv w = (Exited msg, w).
Proof.
  intros H. unfold RunTraces.main.
  destruct argv as [|a0 [|a1 [|a2 rest]]]; try (eexists; reflexivity).
  destruct (RunTraces.run_count a2) as [n|] eqn:Rc; [|eexists; reflexivity].
  destruct (RunTraces.mem a1 RunTraces.ALLOWED_FILES) eqn:M; cbn [negb];
    [|eexists; reflexivity].
  destruct (exists_path (RunTraces.fs w) RunTraces.TRACE_SH) eqn:X;
    cbn [negb]; [|eexists; reflexivity].
  exfalso. destruct H as [H|[H|[H|H]]].
  - cbn in H. lia.
  - destruct H as (a & Ha & Hn). cbn in Ha. inversion Ha; subst.
    apply Hn. exists n. apply run_count_spec. exact Rc.
  - destruct H as (name & Ha & N1 & N2 & N3). cbn in Ha.
    inversion Ha; subst. apply allowed_spec in M. tauto.
  - change (T "trace.sh") with RunTraces.TRACE_SH in H. congruence.
Qed.

Lemma usage_error_not argv w prog name n rest k :
  argv = prog :: name :: n :: rest ->
  RunTraces.run_count n = Some k ->
  RunTraces.mem name RunTraces.ALLOWED_FILES = true ->
  exists_path (RunTraces.fs w) RunTraces.TRACE_SH = true ->
  ~ usage_error argv w.
Proof.
  intros -> Rc M X [H|[H|[H|H]]].
  - cbn in H. lia.
  - destruct H as (a & Ha & Hn). cbn in Ha. inversion Ha; subst.
    apply Hn. exists k. apply run_count_spec. exact Rc.
  - destruct H as (nm & Ha & N1 & N2 & N3). cbn in Ha.
    inversion Ha; subst. apply allowed_spec in M. tauto.
  - change (T "trace.sh") with RunTraces.TRACE_SH in H. congruence.
Qed.


Lemma length_overlaid idx rs : length (overlaid idx rs) = length rs.
Proof.
  unfold overlaid.
  rewrite length_map, length_combine, length_seq, Nat.min_id. reflexivity.
Qed.




Lemma BAD_FILE_inj n1 n2 :
  RunTraces.BAD_FILE n1 = RunTraces.BAD_FILE n2 -> n1 = n2.
Proof.
  unfold RunTraces.BAD_FILE. intros H. apply app_inv_head in H.
  apply app_inv_tail in H. exact H.
Qed.

Lemma messages_differ name :
  RunTraces.USAGE <> RunTraces.BAD_COUNT
  /\ RunTraces.USAGE <> RunTraces.BAD_FILE name
  /\ RunTraces.USAGE <> RunTraces.NO_SCRIPT
  /\ RunTraces.BAD_COUNT <> RunTraces.BAD_FILE name
  /\ RunTraces.BAD_COUNT <> RunTraces.NO_SCRIPT
  /\ RunTraces.BAD_FILE name <> RunTraces.NO_SCRIPT.
Proof.
  assert (U : hd_error RunTraces.USAGE = Some 85%N) by reflexivity.
  assert (C : hd_error RunTraces.BAD_COUNT = Some 60%N) by reflexivity.
  assert (F : hd_error (RunTraces.BAD_FILE name) = Some 70%N) by reflexivity.
  assert (S : hd_error RunTraces.NO_SCRIPT = Some 67%N) by reflexivity.
  repeat split; intros E; apply (f_equal (@hd_error char)) in E;
    rewrite ?U, ?C, ?F, ?S in E; discriminate E.
Qed.

(** X11.  The checks of [main], in their order.  [main] ends in
    [sys.exit] with a message exactly on a usage error; the message is
    the usage line if there are fewer than two arguments, else the
    count message if the count is no positive integer, else the
    allow-list message if the name is not allowed, else the script
    message if trace.sh is not there: of several errors the first in
    this order is reported.  Nothing has been done by then: the world
    is as it was. *)
Theorem X11_exit_messages (status : list text -> Z)
  (effect : filesystem -> list text -> filesystem)
  (argv : list text) (w : RunTraces.world) :
  let r := RunTraces.main status effect argv w in
  ((exists msg, fst r = Exited msg) <-> usage_error argv w)
  /\ (fst r = Exited RunTraces.USAGE <-> (length argv < 3)%nat)
  /\ (fst r = Exited RunTraces.BAD_COUNT <->
      exists a, nth_error argv 2 = Some a /\ RunTraces.run_count a = None)
  /\ (forall name,
        fst r = Exited (RunTraces.BAD_FILE name) <->
        nth_error argv 1 = Some name
        /\ (exists a k, nth_error argv 2 = Some a
                        /\ RunTraces.run_count a = Some k)
        /\ RunTraces.mem name RunTraces.ALLOWED_FILES = false)
  /\ (fst r = Exited RunTraces.NO_SCRIPT <->
      (exists name a k,
         nth_error argv 1 = Some name /\ nth_error argv 2 = Some a
         /\ RunTraces.run_count a = Some k
         /\ RunTraces.mem name RunTraces.ALLOWED_FILES = true)
      /\ exists_path (RunTraces.fs w) RunTraces.TRACE_SH = false)
  /\ ((exists msg, fst r = Exited msg) -> snd r = w).
Proof.
  cbv zeta.
  assert (V : forall prog name n rest k,
             argv = prog :: name :: n :: rest ->
             RunTraces.run_count n = Some k ->
             RunTraces.mem name RunTraces.ALLOWED_FILES = true ->
             exists_path (RunTraces.fs w) RunTraces.TRACE_SH = true ->
             forall msg,
               fst (RunTraces.main status effect argv w) <> Exited msg).
  { intros prog name n rest k -> Rc M X msg.
    destruct (main_valid status effect prog name n rest w k Rc M X)
      as (w1 & _ & ->).
    destruct (existsb _ _); [discriminate|].
    destruct (RunTraces.overlay _ _ _ _); [|discriminate].
    destruct rest; discriminate. }
  split; [|split; [|split; [|split; [|split]]]].
  - split.
    + intros (msg & H). destruct (main_checks argv w) as [U|G]; [exact U|].
      destruct G as (prog & name & n & rest & k & E & Rc & M & X).
      destruct (V _ _ _ _ _ E Rc M X msg H).
    + intros U. destruct (usage_error_exit status effect argv w U) as (msg & ->).
      exists msg. reflexivity.
  - unfold RunTraces.main.
    destruct argv as [|a0 [|a1 [|a2 rest]]];
      try (split; [intros _; cbn; lia | reflexivity]).
    split; [|cbn; lia]. intros H. exfalso.
    destruct (messages_differ a1) as (D1 & D2 & D3 & _).
    destruct (RunTraces.run_count a2); [|inversion H; congruence].
    destruct (RunTraces.mem a1 RunTraces.ALLOWED_FILES); cbn [negb] in H;
      [|inversion H; congruence].
    destruct (exists_path _ _); cbn [negb] in H; [|inversion H; congruence].
    destruct (RunTraces.collect _ _ _ _ _) as [[logs|e] w1]; [|discriminate].
    destruct (RunTraces.overlay _ _ _ _); [|discriminate].
    destruct rest; discriminate.
  - unfold RunTraces.main.
    destruct argv as [|a0 [|a1 [|a2 rest]]];
      try (split; [intros H; inversion H as [E];
                   destruct (messages_differ []) as (D & _); congruence
                  | intros (a & Ha & _); discriminate Ha]).
    destruct (messages_differ a1) as (D1 & D2 & D3 & D4 & D5 & D6).
    destruct (RunTraces.run_count a2) as [k|] eqn:Rc.
    + split; [|intros (a & Ha & N); cbn in Ha; inversion Ha; congruence].
      intros H. exfalso.
      destruct (RunTraces.mem a1 RunTraces.ALLOWED_FILES); cbn [negb] in H;
        [|inversion H; congruence].
      destruct (exists_path _ _); cbn [negb] in H; [|inversion H; congruence].
      destruct (RunTraces.collect _ _ _ _ _) as [[logs|e] w1]; [|discriminate].
      destruct (RunTraces.overlay _ _ _ _); [|discriminate].
      destruct rest; discriminate.
    + split; [|reflexivity]. intros _. exists a2. auto.
  - intros name. unfold RunTraces.main.
    destruct argv as [|a0 [|a1 [|a2 rest]]];
      try (split; [intros H; inversion H as [E];
                   destruct (messages_differ name) as (_ & D & _); congruence
                  | intros (_ & (a & k & Ha & _) & _); discriminate Ha]).
    destruct (messages_differ name) as (D1 & D2 & D3 & D4 & D5 & D6).
    destruct (RunTraces.run_count a2) as [k|] eqn:Rc.
    + destruct (RunTraces.mem a1 RunTraces.ALLOWED_FILES) eqn:M; cbn [negb].
      * split.
        -- intros H. exfalso.
           destruct (exists_path _ _); cbn [negb] in H;
             [|inversion H; congruence].
           destruct (RunTraces.collect _ _ _ _ _) as [[logs|e] w1];
             [|discriminate].
           destruct (RunTraces.overlay _ _ _ _); [|discriminate].
           destruct rest; discriminate.
        -- intros (Hn & _ & Hm). cbn in Hn. inversion Hn; subst. congruence.
      * split.
        -- intros H. cbn [fst] in H.
           assert (E : RunTraces.BAD_FILE a1 = RunTraces.BAD_FILE name)
             by congruence.
           apply BAD_FILE_inj in E. subst.
           split; [reflexivity|]. split; [|exact M]. exists a2, k. auto.
        -- intros (Hn & _ & _). cbn in Hn. inversion Hn; subst. reflexivity.
    + split.
      * intros H. inversion H; congruence.
      * intros (_ & (a & k & Ha & Rc') & _). cbn in Ha. inversion Ha; subst.
        congruence.
  - unfold RunTraces.main.
    destruct argv as [|a0 [|a1 [|a2 rest]]];
      try (split; [intros H; inversion H as [E];
                   destruct (messages_differ []) as (_ & _ & D & _); congruence
                  | intros ((name & a & k & _ & Ha & _) & _); discriminate Ha]).
    destruct (messages_differ a1) as (D1 & D2 & D3 & D4 & D5 & D6).
    destruct (RunTraces.run_count a2) as [k|] eqn:Rc.
    + destruct (RunTraces.mem a1 RunTraces.ALLOWED_FILES) eqn:M; cbn [negb].
      * destruct (exists_path _ _) eqn:X; cbn [negb].
        -- split.
           ++ intros H. exfalso.
              destruct (RunTraces.collect _ _ _ _ _) as [[logs|e] w1];
                [|discriminate].
              destruct (RunTraces.overlay _ _ _ _); [|discriminate].
              destruct rest; discriminate.
           ++ intros (_ & H). discriminate H.
        -- split; [|reflexivity]. intros _. split; [|reflexivity].
           exists a1, a2, k. auto.
      * split.
        -- intros H. inversion H; congruence.
        -- intros ((name & a & k' & Hn & _ & _ & Hm) & _). cbn in Hn.
           inversion Hn; subst. congruence.
    + split.
      * intros H. inversion H; congruence.
      * intros ((name & a & k & _ & Ha & Rc' & _) & _). cbn in Ha.
        inversion Ha; subst. congruence.
  - intros (msg & H). destruct (main_checks argv w) as [U|G].
    + destruct (usage_error_exit status effect argv w U) as (msg' & ->).
      reflexivity.
    + destruct G as (prog & name & n & rest & k & E & Rc & M & X).
      destruct (V _ _ _ _ _ E Rc M X msg H).
Qed.

Lemma X11_exit_messages_witness :
  fst (RunTraces.main (fun _ => 0) (fun f _ => f)
         [T "run_traces.py"; T "1K.bin"; T "0"] world0)
  = Exited RunTraces.BAD_COUNT.
Proof.
  destruct (X11_exit_messages (fun _ => 0) (fun f _ => f)
              [T "run_traces.py"; T "1K.bin"; T "0"] world0)
    as (_ & _ & P & _).
  apply P. exists (T "0"). split; reflexivity.
Defined.

Lemma existsb_fails_false status name l :
  existsb (fails status name) l = false ->
  Forall (fun i => status (RunTraces.command name i) = 0) l.
Proof.
  induction l as [|i l IH]; cbn [existsb]; [constructor|].
  intros H. apply orb_false_iff in H. destruct H as [H1 H2].
  constructor; [|exact (IH H2)].
  unfold fails in H1. apply negb_false_iff, Z.eqb_eq in H1. exact H1.
Qed.

(** X12.  If [main] ends with a chart, every one of the [n_runs]
    collector commands has been run, in order, each with exit status 0,
    and none else; the chart has [n_runs] lines, line [i] being the
    series [parse_log] reads from the log of run [i] as the collector
    left it, labelled [trace i]; and the chart is saved if a fourth
    argument is given, shown otherwise. *)
Theorem X12_chart (status : list text -> Z)
  (effect : filesystem -> list text -> filesystem)
  (argv : list text) (w : RunTraces.world) (fig : Plt.figure) :
  let r := RunTraces.main status effect argv w in
  charted (fst r) = Some fig ->
  exists name a k rs,
    nth_error argv 1 = Some name /\ nth_error argv 2 = Some a
    /\ RunTraces.run_count a = Some k
    /\ RunTraces.calls (snd r)
       = RunTraces.calls w ++ map (RunTraces.command name) (run_indices k)
    /\ Forall (fun i => status (RunTraces.command name i) = 0) (run_indices k)
    /\ Forall2 (fun i s =>
                  RunTraces.parse_log (RunTraces.fs (snd r))
                    (RunTraces.log_path_of name i) = Ok s)
               (run_indices k) rs
    /\ fig = overlaid 1 rs
    /\ length fig = Z.to_nat k
    /\ fst r = match nth_error argv 3 with
               | Some p => Saved p fig
               | None => Shown fig
               end.
Proof.
  cbv zeta. intros H.
  destruct (main_checks argv w) as [U|G].
  { destruct (usage_error_exit status effect argv w U) as (msg & E).
    rewrite E in H. discriminate H. }
  destruct G as (prog & name & n & rest & k & -> & Rc & M & X).
  destruct (main_valid status effect prog name n rest w k Rc M X)
    as (w1 & C & E).
  rewrite E in *. clear E.
  destruct (existsb (fails status name) (run_indices k)) eqn:Fl;
    [discriminate H|].
  rewrite (until_none _ _ Fl) in C.
  destruct (RunTraces.overlay _ _ _ _) as [fig0|e] eqn:O; [|discriminate H].
  assert (fig0 = fig) as -> by (destruct rest; inversion H; reflexivity).
  apply overlay_ok in O. destruct O as (rs & F & Efig). cbn [app] in Efig.
  exists name, n, k, rs.
  assert (L : length rs = Z.to_nat k).
  { rewrite <- (Forall2_length F). unfold run_indices.
    rewrite !length_map, length_seq. reflexivity. }
  assert (F' : Forall2 (fun i s =>
                          RunTraces.parse_log (RunTraces.fs w1)
                            (RunTraces.log_path_of name i) = Ok s)
                       (run_indices k) rs).
  { clear - F. remember (map _ _) as logs eqn:El.
    revert El. generalize (run_indices k). induction F; intros [|i l0] El;
      try discriminate; constructor.
    - cbn [map] in El. inversion El; subst. assumption.
    - apply IHF. cbn [map] in El. inversion El. reflexivity. }
  split; [reflexivity|]. split; [reflexivity|]. split; [exact Rc|].
  destruct rest as [|p rest]; cbn [fst snd RunTraces.calls RunTraces.fs nth_error];
    (split; [exact C|]; split; [exact (existsb_fails_false _ _ _ Fl)|];
     split; [exact F'|]; split; [exact Efig|];
     split; [rewrite Efig, length_overlaid; exact L | reflexivity]).
Qed.

Lemma X12_chart_witness :
  exists name a k rs,
    nth_error [T "run_traces.py"; T "1M.bin"; T "2"] 1 = Some name
    /\ nth_error [T "run_traces.py"; T "1M.bin"; T "2"] 2 = Some a
    /\ RunTraces.run_count a = Some k
    /\ [Plt.mk_line [1 # 2] [1024] (Some (T "trace 1"));
        Plt.mk_line [1 # 2] [1024] (Some (T "trace 2"))] = overlaid 1 rs.
Proof.
  destruct (X12_chart (fun _ => 0) write_scenario1
              [T "run_traces.py"; T "1M.bin"; T "2"] world0
              [Plt.mk_line [1 # 2] [1024] (Some (T "trace 1"));
               Plt.mk_line [1 # 2] [1024] (Some (T "trace 2"))])
    as (name & a & k & rs & H1 & H2 & H3 & _ & _ & _ & H4 & _).
  - vm_compute. reflexivity.
  - exists name, a, k, rs. auto.
Defined.









(** ** The times of a series *)

Lemma micros_time_range ts :
  ts_ok ts = true -> valid_time ts = true ->
  0 <= micros (time_of ts) < 86400000000.
Proof.
  intros K V. destruct (ts_fields_nonneg ts K) as (H & M & S & U).
  unfold valid_time in V. apply andb_true_iff in V. destruct V as [V Vs].
  apply andb_true_iff in V. destruct V as [Vh Vm].
  apply Z.ltb_lt in Vh, Vm, Vs.
  unfold micros, time_of. cbn [hour minute second microsecond]. lia.
Qed.

Lemma total_seconds_le a b :
  a <= b -> (total_seconds a <= total_seconds b)%Q.
Proof.
  intros H. rewrite !total_seconds_exact. unfold Qle. cbn [Qnum Qden]. lia.
Qed.

Lemma total_seconds_range td :
  -86400000000 < td < 86400000000 ->
  (-86400 < total_seconds td)%Q /\ (total_seconds td < 86400)%Q.
Proof.
  intros H. rewrite !total_seconds_exact. unfold Qlt. cbn [Qnum Qden]. lia.
Qed.

Lemma events_ts_ok log e : In e (events log) -> ts_ok (fst e) = true.
Proof.
  unfold events. rewrite in_flat_map. intros (l & _ & H).
  destruct (recv l) as [[ts n]|] eqn:R; [|destruct H].
  destruct H as [<-|[]]. cbn [fst].
  destruct (recv_some _ _ _ R) as (_ & _ & _ & _ & _ & _ & K). exact K.
Qed.

Lemma first_stamp_ok : forall log ts0,
  first_stamp log = Some ts0 -> ts_ok ts0 = true.
Proof.
  intros log ts0 F.
  destruct (first_stamp_split _ _ F) as (_ & l & _ & _ & _ & S).
  destruct (stamp_some _ _ S) as (_ & _ & _ & K). exact K.
Qed.

Section Times.

Variable ts0 : text.
Hypothesis ok0 : ts_ok ts0 = true.
Hypothesis valid0 : valid_time ts0 = true.

Variable evs : list event.
Hypothesis ok : forall e, In e evs -> ts_ok (fst e) = true.
Hypothesis valid : all_valid evs = true.

Lemma times_range :
  Forall (fun t => (-86400 < t)%Q /\ (t < 86400)%Q) (map (elapsed (time_of ts0)) (map fst evs)).
Proof.
  rewrite map_map. apply Forall_forall. intros t H.
  apply in_map_iff in H. destruct H as (e & <- & I).
  unfold all_valid in valid. rewrite forallb_forall in valid.
  pose proof (micros_time_range _ (ok e I) (valid e I)).
  pose proof (micros_time_range _ ok0 valid0).
  apply total_seconds_range. unfold sub_datetime. lia.
Qed.

Lemma times_nonneg :
  Forall (fun e : event => no_later ts0 (fst e)) evs ->
  Forall (fun t => (0 <= t)%Q) (map (elapsed (time_of ts0)) (map fst evs)).
Proof.
  rewrite map_map. intros F. apply Forall_forall. intros t H.
  apply in_map_iff in H. destruct H as (e & <- & I).
  rewrite Forall_forall in F. specialize (F e I). unfold no_later in F.
  unfold elapsed. rewrite total_seconds_exact. unfold Qle, sub_datetime.
  cbn [Qnum Qden]. lia.
Qed.

Lemma times_sorted :
  StronglySorted (fun a b : event => no_later (fst a) (fst b)) evs ->
  StronglySorted Qle (map (elapsed (time_of ts0)) (map fst evs)).
Proof.
  clear. induction 1 as [|e l S IH F]; cbn [map]; [constructor|].
  constructor; [exact IH|]. rewrite map_map. apply Forall_forall. intros t H.
  apply in_map_iff in H. destruct H as (e' & <- & I).
  rewrite Forall_forall in F. specialize (F e' I). unfold no_later in F.
  apply total_seconds_le. unfold sub_datetime. lia.
Qed.

End Times.

Lemma in_firstn {A} : forall (l : list A) k x, In x (firstn k l) -> In x l.
Proof.
  induction l as [|y l IH]; intros [|k] x H; cbn [firstn] in H;
    try destruct H as [].
  - left. assumption.
  - right. eapply IH. eassumption.
Qed.

Lemma StronglySorted_firstn {A} (R : A -> A -> Prop) : forall l k,
  StronglySorted R l -> StronglySorted R (firstn k l).
Proof.
  induction l as [|x l IH]; intros [|k] S; cbn [firstn]; try constructor.
  - apply IH. inversion S; assumption.
  - inversion S as [|? ? ? F]; subst. apply Forall_forall. intros y I.
    rewrite Forall_forall in F. apply F.
    exact (in_firstn _ _ _ I).
Qed.

(** X15.  The times of a series.  Every elapsed time is more than
    -86400 and less than 86400 seconds, both timestamps being times of
    one day.  If no data-receipt line is earlier in the day than the
    anchor, no elapsed time is negative; if the data-receipt lines are
    in the order of their times of day, the times of [parse_log]'s
    series are non-decreasing, and with both so are those of plot.py's
    series, its first sample included. *)
Theorem X15_elapsed_values (log : list text) (ts0 : text) :
  first_stamp log = Some ts0 ->
  (forall r,
     RunTraces.parse_lines log = Ok r ->
     Forall (fun t => (-86400 < t)%Q /\ (t < 86400)%Q) (fst r)
     /\ (Forall (fun e : event => no_later ts0 (fst e)) (events log) ->
         Forall (fun t => (0 <= t)%Q) (fst r))
     /\ (StronglySorted (fun a b : event => no_later (fst a) (fst b))
                        (events log) ->
         StronglySorted Qle (fst r)))
  /\ (forall e st,
        Plot.loop Plot.init log = Ok (e, st) ->
        Forall (fun t => (-86400 < t)%Q /\ (t < 86400)%Q) (Plot.times st)
        /\ (Forall (fun e : event => no_later ts0 (fst e)) (events log) ->
            StronglySorted (fun a b : event => no_later (fst a) (fst b))
                           (events log) ->
            StronglySorted Qle (Plot.times st))).
Proof.
  intros F. pose proof (first_stamp_ok _ _ F) as K0. split.
  - intros r H. apply parse_lines_ok in H. rewrite F in H.
    destruct H as (V0 & A & ->). cbn [fst].
    split; [|split].
    + apply times_range; auto. intros e. apply events_ts_ok.
    + apply times_nonneg.
    + apply times_sorted.
  - intros e st. rewrite plot_loop_spec. unfold plot_spec. rewrite F.
    destruct (valid_time ts0) eqn:V0; [|discriminate].
    destruct (all_valid _) eqn:A; [|discriminate]. cbn [andb].
    intros H. inversion H; subst. clear H.
    set (up := upto_crossing Plot.THRESHOLD 0 (events log)) in *.
    change (Plot.times (plot_after (plot_anchored Plot.init (time_of ts0))
                          (time_of ts0) up))
      with (0%Q :: map (elapsed (time_of ts0)) (map fst up)).
    assert (I : forall x, In x up -> In x (events log)).
    { intros x. apply upto_crossing_incl. }
    split.
    + constructor; [split; reflexivity|].
      apply times_range; auto. intros x Hx. apply (events_ts_ok log), I, Hx.
    + intros N S. constructor.
      * apply times_sorted. unfold up.
        rewrite upto_crossing_firstn. apply StronglySorted_firstn, S.
      * apply times_nonneg. apply Forall_forall. intros x Hx.
        rewrite Forall_forall in N. apply N, I, Hx.
Qed.

Lemma X15_elapsed_values_witness :
  StronglySorted Qle (Plot.times mk_plot_crossing).
Proof.
  destruct (X15_elapsed_values log_crossing (T "10:00:00.000000"))
    as [_ P]; [vm_compute; reflexivity|].
  destruct (P Plot.Broke mk_plot_crossing) as [_ S];
    [vm_compute; reflexivity|].
  apply S.
  - repeat constructor; unfold no_later; vm_compute; discriminate.
  - repeat constructor; unfold no_later; vm_compute; discriminate.
Defined.
